(** * SLEAP inference utilities: instance cropping and frame grouping

    A shallow embedding of [sleap/nn/data/instance_cropping.py] and of the
    iteration and command-line helpers of [sleap/nn/inference.py], with the
    properties the design document states about them.

    Conventions of the embedding.
    - Python exceptions are values of [exn]; a call that may raise returns a
      [result].
    - In [InstanceCropping], [tf.float32] and [float] values are exact
      rationals ([Q]), the arithmetic the design document reasons in;
      equalities between them are stated up to [Qeq], and of the values
      that are not finite the model has those the source branches on ([NaN]
      in point arrays, division by a zero stride).
    - [FloatCropping] has [crop_bboxes] again in the arithmetic TensorFlow
      runs it in, IEEE 754 binary32 with its rounding: what is stated
      about the sizes and the values of the crops is stated there.
    - A Python [dict] with string keys is a [gmap string _]; a lazily
      produced sequence is the list of the outcomes of its [next] calls. *)

From Stdlib Require Import ZArith QArith Qround Qminmax Lia String Ascii List.
From Stdlib Require Floats.SpecFloat.
From stdpp Require Import base option list gmap strings.

Local Open Scope Z_scope.

(** ** Python runtime: exceptions and fallible calls *)

Module Py.

(** The exception classes that occur in the modelled code.  All of them
    derive from [Exception] except [KeyboardInterrupt] and [SystemExit],
    which derive from [BaseException] only. *)
Inductive exn : Type :=
| StopIteration
| NameError (name : string)
| UnboundLocalError (name : string)
| KeyError (key : string)
| TypeError (msg : string)
| ValueError (msg : string)
| ZeroDivisionError
| OverflowError
| InvalidArgumentError (msg : string)
| RuntimeError (msg : string)
| AttributeError (name : string)
| KeyboardInterrupt
| SystemExit.

(** [isinstance(e, Exception)]: what a clause [except Exception] catches. *)
Definition is_Exception (e : exn) : bool :=
  match e with
  | KeyboardInterrupt | SystemExit => false
  | _ => true
  end.

Definition is_StopIteration (e : exn) : bool :=
  match e with
  | StopIteration => true
  | _ => false
  end.

Inductive result (A : Type) : Type :=
| Ok (a : A)
| Raise (e : exn).
Arguments Ok {A} a.
Arguments Raise {A} e.

Definition bind {A B : Type} (m : result A) (k : A → result B) : result B :=
  match m with
  | Ok a => k a
  | Raise e => Raise e
  end.

Definition is_Ok {A : Type} (m : result A) : bool :=
  match m with
  | Ok _ => true
  | Raise _ => false
  end.

(** Running a fallible function over a list, left to right, stopping at
    the first exception. *)
Fixpoint for_each {A B : Type} (f : A → result B) (l : list A)
  : result (list B) :=
  match l with
  | [] => Ok []
  | x :: l' =>
      bind (f x) (λ y, bind (for_each f l') (λ ys, Ok (y :: ys)))
  end.

(** A [for] loop that threads an accumulator. *)
Fixpoint for_fold {A S : Type} (body : S → A → result S) (s : S)
  (l : list A) : result S :=
  match l with
  | [] => Ok s
  | x :: l' => bind (body s x) (λ s', for_fold body s' l')
  end.

(** Module objects and the global namespace of a module. *)
Inductive pyobj : Type :=
| PyModule (name : string)
| PyClass (name : string)
| PyFunction (name : string).

(** Reading a global name; [NameError] when it is unbound.  The names
    looked up in the modelled code are not builtins. *)
Definition load_global (globals : gmap string pyobj) (name : string)
  : result pyobj :=
  match globals !! name with
  | Some o => Ok o
  | None => Raise (NameError name)
  end.

End Py.

Export Py.

Notation "'let*' x ':=' m 'in' k" := (Py.bind m (λ x, k))
  (at level 10, x name, m at level 100, k at level 200,
   format "'[v' 'let*'  x  :=  m  'in'  '/' k ']'").
Notation "'let*' '_' ':=' m 'in' k" := (Py.bind m (λ _, k))
  (at level 10, m at level 100, k at level 200,
   format "'[v' 'let*'  '_'  :=  m  'in'  '/' k ']'").

(** ** NumPy and [math]: the operations [find_instance_crop_size] calls *)

Module NumPy.

(** An element of a float array or a [numpy.float64] scalar: a rational,
    or NaN ([None]). *)
Abbreviation float64 := (option Q).

(** [np.nanmax] and [np.nanmin]: the reduction skips NaN entries; an
    array of NaN only reduces to NaN (with a warning), and an empty array
    raises [ValueError]. *)
Definition nan_step (op : Q → Q → Q) (acc v : float64) : float64 :=
  match acc, v with
  | Some a, Some b => Some (op a b)
  | Some a, None => Some a
  | None, _ => v
  end.

Definition nan_reduce (op : Q → Q → Q) (a : list float64) : result float64 :=
  match a with
  | [] => Raise (ValueError "zero-size array to reduction operation")
  | _ :: _ => Ok (foldl (nan_step op) None a)
  end.

Definition nanmax : list float64 → result float64 := nan_reduce Qmax.
Definition nanmin : list float64 → result float64 := nan_reduce Qmin.

(** Arithmetic on [numpy.float64] propagates NaN. *)
Definition lift2 (op : Q → Q → Q) (a b : float64) : float64 :=
  match a, b with
  | Some x, Some y => Some (op x y)
  | _, _ => None
  end.

Definition subtract : float64 → float64 → float64 := lift2 Qminus.
Definition add : float64 → float64 → float64 := lift2 Qplus.
(** [np.maximum] propagates NaN as well. *)
Definition maximum : float64 → float64 → float64 := lift2 Qmax.

(** The variable [max_length] starts as a builtin [float] and becomes a
    [numpy.float64] at the first [np.maximum]. *)
Inductive scalar : Type :=
| PyFloat (q : Q)
| NpFloat64 (v : float64).

Definition to_float64 (s : scalar) : float64 :=
  match s with
  | PyFloat q => Some q
  | NpFloat64 v => v
  end.

(** [s += float(k)] keeps the type of [s]. *)
Definition iadd (s : scalar) (k : Q) : scalar :=
  match s with
  | PyFloat q => PyFloat (q + k)
  | NpFloat64 v => NpFloat64 (add v (Some k))
  end.

(** A quotient may leave the rationals when the divisor is zero. *)
Inductive quotient : Type :=
| Finite (q : Q)
| NotANumber
| Infinite.

(** [s / d] for a float [d]: a builtin float raises on a zero divisor, a
    [numpy.float64] follows IEEE 754 (with a warning). *)
Definition true_divide (s : scalar) (d : Q) : result quotient :=
  match s with
  | PyFloat q =>
      if Qeq_bool d 0 then Raise ZeroDivisionError else Ok (Finite (q / d))
  | NpFloat64 None => Ok NotANumber
  | NpFloat64 (Some q) =>
      if Qeq_bool d 0
      then Ok (if Qeq_bool q 0 then NotANumber else Infinite)
      else Ok (Finite (q / d))
  end.

(** [math.ceil], reached as [np.math.ceil]. *)
Definition ceil (x : quotient) : result Z :=
  match x with
  | Finite q => Ok (Qceiling q)
  | NotANumber => Raise (ValueError "cannot convert float NaN to integer")
  | Infinite => Raise OverflowError
  end.

End NumPy.

(** ** [sleap.nn.data.instance_cropping] *)

Module InstanceCropping.

(** The part of [sleap.Instance] and [sleap.Labels] the module reads:
    [points_array] has one row [(x, y)] per skeleton node, NaN where the
    node is not labelled. *)
Record Instance : Type := mkInstance {
  points_array : list (NumPy.float64 * NumPy.float64)
}.

Record Labels : Type := mkLabels {
  user_instances : list Instance
}.

(** The global namespace of [instance_cropping.py] once the module is
    loaded: the names bound by its import statements (lines 3 to 7) and
    by its top-level definitions.  There is no binding for [np]. *)
Definition module_globals : gmap string pyobj :=
  list_to_map
    [ ("tf", PyModule "tensorflow");
      ("attr", PyModule "attr");
      ("Optional", PyClass "typing.Optional");
      ("List", PyClass "typing.List");
      ("Text", PyClass "typing.Text");
      ("sleap", PyModule "sleap");
      ("InstanceCroppingConfig", PyClass "sleap.nn.config.InstanceCroppingConfig");
      ("find_instance_crop_size", PyFunction "find_instance_crop_size");
      ("normalize_bboxes", PyFunction "normalize_bboxes");
      ("unnormalize_bboxes", PyFunction "unnormalize_bboxes");
      ("make_centered_bboxes", PyFunction "make_centered_bboxes");
      ("crop_bboxes", PyFunction "crop_bboxes");
      ("InstanceCropper", PyClass "InstanceCropper") ].

(** The same namespace after [import numpy as np], the statement
    [sleap/nn/inference.py] has at its line 11. *)
Definition globals_with_numpy : gmap string pyobj :=
  <["np" := PyModule "numpy"]> module_globals.

(** Evaluating [np.<attr>] for an attribute of the numpy module. *)
Definition np (globals : gmap string pyobj) : result unit :=
  let* o := load_global globals "np" in
  match o with
  | PyModule "numpy" => Ok ()
  | _ => Raise (AttributeError "np")
  end.

(** One statement
    [max_length = np.maximum(max_length, np.nanmax(c) - np.nanmin(c))]
    for a column [c] of the point array.  Python evaluates the callee
    [np.maximum] before the arguments. *)
Definition update_max_length (globals : gmap string pyobj)
  (max_length : NumPy.scalar) (c : list NumPy.float64)
  : result NumPy.scalar :=
  let* _ := np globals in
  let* _ := np globals in
  let* hi := NumPy.nanmax c in
  let* _ := np globals in
  let* lo := NumPy.nanmin c in
  Ok (NumPy.NpFloat64
          (NumPy.maximum (NumPy.to_float64 max_length) (NumPy.subtract hi lo))).

Definition find_instance_crop_size (globals : gmap string pyobj)
  (labels : Labels) (padding maximum_stride : Z) : result Z :=
  let* max_length :=
    for_fold
      (λ max_length inst,
         let pts := points_array inst in
         let* max_length := update_max_length globals max_length (pts.*1) in
         update_max_length globals max_length (pts.*2))
      (NumPy.PyFloat 0) (user_instances labels) in
  let max_length := NumPy.iadd max_length (inject_Z padding) in
  let* _ := np globals in
  let* ratio := NumPy.true_divide max_length (inject_Z maximum_stride) in
  let* crop_size := NumPy.ceil ratio in
  Ok (crop_size * maximum_stride).

(** The crop size in the words of the design document: the largest
    extent of an instance along x or y, rounded and padded. *)
Definition extent (c : list NumPy.float64) : Q :=
  match omap id c with
  | [] => 0
  | v :: vs => (foldr Qmax v vs - foldr Qmin v vs)%Q
  end.

Definition instance_extent (inst : Instance) : Q :=
  Qmax (extent ((points_array inst).*1)) (extent ((points_array inst).*2)).

Definition max_instance_extent (labels : Labels) : Q :=
  foldr Qmax 0%Q (instance_extent <$> user_instances labels).

(** A column with an entry that is not NaN, and an instance with such an
    entry in both columns: one labelled node. *)
Definition has_visible (c : list NumPy.float64) : Prop := ∃ q, Some q ∈ c.

Definition visible_instance (inst : Instance) : Prop :=
  has_visible ((points_array inst).*1) ∧ has_visible ((points_array inst).*2).


(** Padding added before rounding up to the stride. *)
Definition padded_before_rounding (labels : Labels) (padding stride : Z) : Z :=
  Qceiling ((max_instance_extent labels + inject_Z padding) / inject_Z stride)
  * stride.

(** *** Bounding boxes *)

(** A row [(y1, x1, y2, x2)] of a bounding-box tensor of shape
    [(n_bboxes, 4)]; the tensor is the list of its rows. *)
Record bbox : Type := mkBBox { y1 : Q; x1 : Q; y2 : Q; x2 : Q }.

(** Elementwise operation of a row with a broadcast row of shape (1, 4). *)
Definition bbox_zip (op : Q → Q → Q) (a b : bbox) : bbox :=
  {| y1 := op (y1 a) (y1 b); x1 := op (x1 a) (x1 b);
     y2 := op (y2 a) (y2 b); x2 := op (x2 a) (x2 b) |}.

Definition bbox_eq (a b : bbox) : Prop :=
  (y1 a == y1 b ∧ x1 a == x1 b ∧ y2 a == y2 b ∧ x2 a == x2 b)%Q.

(** [tf.convert_to_tensor([[image_height, image_width, image_height,
    image_width]], tf.float32) - 1]. *)
Definition factor (image_height image_width : Z) : bbox :=
  {| y1 := inject_Z image_height - 1; x1 := inject_Z image_width - 1;
     y2 := inject_Z image_height - 1; x2 := inject_Z image_width - 1 |}%Q.

Definition normalize_bboxes (bboxes : list bbox)
  (image_height image_width : Z) : list bbox :=
  let factor := factor image_height image_width in
  let normalized_bboxes := (λ b, bbox_zip Qdiv b factor) <$> bboxes in
  normalized_bboxes.

Definition unnormalize_bboxes (normalized_bboxes : list bbox)
  (image_height image_width : Z) : list bbox :=
  let factor := factor image_height image_width in
  let bboxes := (λ b, bbox_zip Qmult b factor) <$> normalized_bboxes in
  bboxes.

(** A row [(x, y)] of a tensor of shape [(n, 2)]. *)
Abbreviation point := (Q * Q)%type.

(** [tf.gather(centroids, [1, 0, 1, 0], axis=-1)] on one row. *)
Definition gather_yxyx (c : point) : bbox :=
  {| y1 := c.2; x1 := c.1; y2 := c.2; x2 := c.1 |}.

Definition make_centered_bboxes (centroids : list point)
  (box_height box_width : Z) : list bbox :=
  let delta :=
    bbox_zip Qmult
      {| y1 := inject_Z (- box_height + 1); x1 := inject_Z (- box_width + 1);
         y2 := inject_Z (box_height - 1); x2 := inject_Z (box_width - 1) |}
      {| y1 := 1 # 2; x1 := 1 # 2; y2 := 1 # 2; x2 := 1 # 2 |} in
  let bboxes := (λ c, bbox_zip Qplus (gather_yxyx c) delta) <$> centroids in
  bboxes.

(** *** Images and cropping *)

(** The element types [tf.image.crop_and_resize] accepts. *)
Inductive dtype : Type :=
| uint8 | uint16 | int8 | int16 | int32 | int64
| float16 | float32 | float64.

Definition is_integer (t : dtype) : bool :=
  match t with
  | float16 | float32 | float64 => false
  | _ => true
  end.

(** A tensor of shape [(height, width, channels)]: rows of pixels of
    channel values. *)
Record Image : Type := mkImage {
  image_dtype : dtype;
  pixels : list (list (list Q))
}.

(** [tf.shape] of such a tensor. *)
Definition height (px : list (list (list Q))) : Z := Z.of_nat (length px).
Definition width (px : list (list (list Q))) : Z :=
  Z.of_nat (length (hd [] px)).
Definition depth (px : list (list (list Q))) : Z :=
  Z.of_nat (length (hd [] (hd [] px))).

Definition pixel_at (px : list (list (list Q))) (y x : Z) (d : nat) : Q :=
  nth d (nth (Z.to_nat x) (nth (Z.to_nat y) px []) []) 0%Q.

(** [tf.math.round]: to the nearest integer, halves to the even one. *)
Definition round_half_even (q : Q) : Z :=
  let f := Qfloor q in
  match (q - inject_Z f ?= 1 # 2)%Q with
  | Lt => f
  | Gt => f + 1
  | Eq => if Z.even f then f else f + 1
  end.

(** [tf.cast] of a float to [t]: integer types truncate toward zero. *)
Definition truncate (q : Q) : Z :=
  if Qle_bool 0 q then Qfloor q else Qceiling q.

Definition cast (t : dtype) (q : Q) : Q :=
  if is_integer t then inject_Z (truncate q) else q.

(** The coordinate in the image of sample [i] out of [crop] along an axis
    of [size] pixels, for a box side from [lo] to [hi] in normalized
    coordinates. *)
Definition sample_coordinate (lo hi : Q) (size crop : Z) (i : nat) : Q :=
  if (1 <? crop)%Z
  then
    let scale := ((hi - lo) * inject_Z (size - 1) / inject_Z (crop - 1))%Q in
    (lo * inject_Z (size - 1) + inject_Z (Z.of_nat i) * scale)%Q
  else ((1 # 2) * (lo + hi) * inject_Z (size - 1))%Q.

Definition out_of_range (c : Q) (size : Z) : bool :=
  negb (Qle_bool 0 c) || negb (Qle_bool c (inject_Z (size - 1))).

(** One output pixel of the bilinear method, all channels. *)
Definition bilinear (px : list (list (list Q))) (in_y in_x : Q)
  : list Q :=
  let top_y_index := Qfloor in_y in
  let bottom_y_index := Qceiling in_y in
  let y_lerp := (in_y - inject_Z top_y_index)%Q in
  let left_x_index := Qfloor in_x in
  let right_x_index := Qceiling in_x in
  let x_lerp := (in_x - inject_Z left_x_index)%Q in
  (λ d,
     let top_left := pixel_at px top_y_index left_x_index d in
     let top_right := pixel_at px top_y_index right_x_index d in
     let bottom_left := pixel_at px bottom_y_index left_x_index d in
     let bottom_right := pixel_at px bottom_y_index right_x_index d in
     let top := (top_left + (top_right - top_left) * x_lerp)%Q in
     let bottom := (bottom_left + (bottom_right - bottom_left) * x_lerp)%Q in
     (top + (bottom - top) * y_lerp)%Q)
  <$> seq 0 (Z.to_nat (depth px)).

Definition extrapolation_value : Q := 0.

Definition crop_one (px : list (list (list Q))) (crop_height crop_width : Z)
  (box : bbox) : list (list (list Q)) :=
  (λ y,
     let in_y := sample_coordinate (y1 box) (y2 box) (height px) crop_height y in
     (λ x,
        let in_x := sample_coordinate (x1 box) (x2 box) (width px) crop_width x in
        if out_of_range in_y (height px) || out_of_range in_x (width px)
        then replicate (Z.to_nat (depth px)) extrapolation_value
        else bilinear px in_y in_x)
     <$> seq 0 (Z.to_nat crop_width))
  <$> seq 0 (Z.to_nat crop_height).

(** Modelled from the spec: [tf.image.crop_and_resize] is an operation of
    TensorFlow, which is not part of the repository.  The definition is
    the bilinear resampling of the design document on the sampling grid
    of TensorFlow's operation: a batch of one image, every box read from
    it, samples outside the image set to the extrapolation value 0, and
    an [InvalidArgumentError] for an empty image or a crop size that is
    not positive.  The crops are float32 whatever the type of the
    image.  The values are exact here; [FloatCropping.crop_and_resize] is
    the operation with the rounding of float32. *)
Definition crop_and_resize (px : list (list (list Q))) (boxes : list bbox)
  (crop_size : Z * Z) : result (list (list (list (list Q)))) :=
  if negb ((0 <? height px) && (0 <? width px))
  then Raise (InvalidArgumentError "image dimensions must be positive")
  else if negb ((0 <? crop_size.1) && (0 <? crop_size.2))
  then Raise (InvalidArgumentError "crop dimensions must be positive")
  else Ok (crop_one px crop_size.1 crop_size.2 <$> boxes).

(** The row [bboxes[0]], which the two [tf.gather_nd] calls read; the
    indices are out of bounds for an empty tensor. *)
Definition first_box (bboxes : list bbox) : result bbox :=
  match bboxes with
  | b :: _ => Ok b
  | [] => Raise (InvalidArgumentError "indices[0] does not index into param")
  end.

Definition cast_crop (t : dtype) (crop : list (list (list Q))) : Image :=
  {| image_dtype := t; pixels := map (map (map (cast t))) crop |}.

Definition crop_bboxes (image : Image) (bboxes : list bbox)
  : result (list Image) :=
  let* first := first_box bboxes in
  let box_size :=
    (round_half_even (y2 first - y1 first + 1),
     round_half_even (x2 first - x1 first + 1)) in
  let image_height := height (pixels image) in
  let image_width := width (pixels image) in
  let normalized_bboxes := normalize_bboxes bboxes image_height image_width in
  let* crops := crop_and_resize (pixels image) normalized_bboxes box_size in
  Ok (cast_crop (image_dtype image) <$> crops).

(** [image[r0:r1, c0:c1]] for bounds that are not negative. *)
Definition slice (image : Image) (r0 r1 c0 c1 : nat) : Image :=
  {| image_dtype := image_dtype image;
     pixels := (λ row, drop c0 (take c1 row)) <$> drop r0 (take r1 (pixels image)) |}.

(** *** Examples and datasets *)

(** The tensors that an example holds under its keys. *)
Inductive value : Type :=
| Img (image : Image)
| Points (pts : list point)
| Instances (insts : list (list point))
| Box (b : bbox)
| Point (p : point)
| Int (z : Z)
| Tensor (shape : list nat) (data : list Q).

(** An example is a dictionary from keys to tensors. *)
Abbreviation example := (gmap string value).

(** A [tf.data.Dataset], seen through its iterator: the outcomes of the
    successive [next] calls before the end of the sequence.  Producing
    an element may fail; the iterator then goes on with the next one. *)
Abbreviation dataset := (list (result example)).

(** [next(iter(ds))]. *)
Definition first_element (ds : dataset) : result example :=
  match ds with
  | o :: _ => o
  | [] => Raise StopIteration
  end.

(** [Dataset.map]: the function runs on the elements that were
    produced. *)
Definition dataset_map {A B : Type} (f : A → result B)
  (ds : list (result A)) : list (result B) :=
  (λ o, Py.bind o f) <$> ds.

(** [frame_data[key]]. *)
Definition getitem (frame_data : example) (key : string) : result value :=
  match frame_data !! key with
  | Some v => Ok v
  | None => Raise (KeyError key)
  end.

Definition as_image (v : value) : result Image :=
  match v with
  | Img image => Ok image
  | _ => Raise (InvalidArgumentError "expected a tensor of rank 3")
  end.

Definition as_points (v : value) : result (list point) :=
  match v with
  | Points pts => Ok pts
  | _ => Raise (InvalidArgumentError "expected a tensor of shape (n, 2)")
  end.

Definition as_instances (v : value) : result (list (list point)) :=
  match v with
  | Instances insts => Ok insts
  | _ => Raise (InvalidArgumentError "expected a tensor of shape (n, m, 2)")
  end.

(** A dictionary of batched tensors: under each key, the slices along
    the first axis. *)
Abbreviation batched := (gmap string (list value)).

(** [Dataset.unbatch] on one element: the components must agree on the
    size of their first axis; the element splits into one example per
    index. *)
Definition unbatch_element (data : batched) : result (list example) :=
  match map_to_list data with
  | [] => Ok []
  | (_, column) :: _ =>
      let n := length column in
      if decide (map_Forall (λ _ c, length c = n) data)
      then Ok ((λ i, omap (λ c : list value, c !! i) data) <$> seq 0 n)
      else Raise (InvalidArgumentError "components differ in their first axis")
  end.

Definition dataset_unbatch (ds : list (result batched)) : dataset :=
  o ← ds;
  match Py.bind o unbatch_element with
  | Ok examples => Ok <$> examples
  | Raise e => [Raise e]
  end.

(** *** [InstanceCropper] *)

Record InstanceCropper : Type := mkInstanceCropper {
  crop_width : Z;
  crop_height : Z;
  keep_full_image : bool
}.

Definition input_keys (self : InstanceCropper) : list string :=
  ["image"; "instances"; "centroids"].


(** [tf.gather_nd(all_instances, [[0, 0], [1, 1], ...])]. *)
Definition gather_diagonal (all_instances : list (list (list point)))
  (n_instances : nat) : result (list (list point)) :=
  for_each
    (λ i, match all_instances !! i ≫= (.!! i) with
          | Some inst => Ok inst
          | None => Raise (InvalidArgumentError "indices out of bounds")
          end)
    (seq 0 n_instances).

(** The local function [crop_instances] of [transform_dataset]. *)
Definition crop_instances (self : InstanceCropper)
  (keys_to_expand : list string) (frame_data : example) : result batched :=
  let* centroids := Py.bind (getitem frame_data "centroids") as_points in
  let bboxes :=
    make_centered_bboxes centroids (crop_height self) (crop_width self) in
  let* image := Py.bind (getitem frame_data "image") as_image in
  let* instance_images := crop_bboxes image bboxes in
  let bboxes_x1y1 := (λ b, (x1 b, y1 b)) <$> bboxes in
  let n_instances := length bboxes in
  let* instances := Py.bind (getitem frame_data "instances") as_instances in
  let all_instances :=
    (λ offset : point,
       (λ inst : list point,
          (λ p : point, (p.1 - offset.1, p.2 - offset.2)%Q) <$> inst)
       <$> instances)
    <$> bboxes_x1y1 in
  let* center_instances := gather_diagonal all_instances n_instances in
  let instances_data : batched :=
    <["instance_image" := Img <$> instance_images]>
    (<["bbox" := Box <$> bboxes]>
    (<["center_instance" := Points <$> center_instances]>
    (<["center_instance_ind" := (λ i, Int (Z.of_nat i)) <$> seq 0 n_instances]>
    (<["all_instances" := Instances <$> all_instances]>
    (<["centroid" := Point <$> centroids]>
    (<["full_image_height" := replicate n_instances (Int (height (pixels image)))]>
    (<["full_image_width" := replicate n_instances (Int (width (pixels image)))]>
     ∅))))))) in
  for_fold
    (λ (instances_data : batched) key,
       let* v := getitem frame_data key in
       Ok (<[key := replicate n_instances v]> instances_data))
    instances_data keys_to_expand.

Definition transform_dataset (self : InstanceCropper) (input_ds : dataset)
  : result dataset :=
  let* test_example := first_element input_ds in
  let keys_to_expand :=
    filter (λ key, key ∉ input_keys self) (map_to_list test_example).*1 in
  let keys_to_expand :=
    if keep_full_image self then keys_to_expand ++ ["image"]
    else keys_to_expand in
  let output_ds := dataset_map (crop_instances self keys_to_expand) input_ds in
  let output_ds := dataset_unbatch output_ds in
  Ok output_ds.


End InstanceCropping.

(** ** [tf.float32] arithmetic *)

Module Float32.
Import SpecFloat.

(** IEEE 754 binary32 in the Standard Library's specification of
    floating-point numbers: 24 bits of precision, exponents below 128.
    Every operation rounds its exact result to the nearest number of the
    format, ties to even, with signed zeros, infinities and NaN. *)
Definition prec : Z := 24.
Definition emax : Z := 128.

Abbreviation binary32 := spec_float.

Definition add : binary32 → binary32 → binary32 := SFadd prec emax.
Definition sub : binary32 → binary32 → binary32 := SFsub prec emax.
Definition mul : binary32 → binary32 → binary32 := SFmul prec emax.
Definition div : binary32 → binary32 → binary32 := SFdiv prec emax.
Definition ltb : binary32 → binary32 → bool := SFltb.

(** Conversion of an integer. *)
Definition of_Z (z : Z) : binary32 := binary_normalize prec emax z 0 false.

(** Conversion of a rational: the quotient of its numerator and its
    denominator, rounded once. *)
Definition of_Q (q : Q) : binary32 :=
  match Qnum q with
  | Z0 => S754_zero false
  | Zpos n => SFdiv prec emax (S754_finite false n 0)
                (S754_finite false (Qden q) 0)
  | Zneg n => SFdiv prec emax (S754_finite true n 0)
                (S754_finite false (Qden q) 0)
  end.

(** The value of a finite number. *)
Definition to_Q (x : binary32) : option Q :=
  match x with
  | S754_zero _ => Some 0%Q
  | S754_finite s m e => Some (inject_Z (cond_Zopp s (Zpos m)) * Qpower 2 e)%Q
  | S754_infinity _ | S754_nan => None
  end.

(** [double] arithmetic, for the C++ expressions that have a [double]
    operand: binary64. *)
Definition to_double (x : binary32) : spec_float :=
  match x with
  | S754_finite s m e => binary_normalize 53 1024 (cond_Zopp s (Zpos m)) e s
  | _ => x
  end.

Definition double_of_Z (z : Z) : spec_float := binary_normalize 53 1024 z 0 false.

Definition double_mul : spec_float → spec_float → spec_float := SFmul 53 1024.

Definition of_double (x : spec_float) : binary32 :=
  match x with
  | S754_finite s m e => binary_normalize prec emax (cond_Zopp s (Zpos m)) e s
  | _ => x
  end.

(** The [double] constant [0.5]. *)
Definition double_half : spec_float := S754_finite false 4503599627370496 (-53).

End Float32.

(** ** Cropping in [tf.float32] arithmetic *)

(** [crop_bboxes] as TensorFlow runs it: the boxes and the resampling in
    binary32, the pixels read from and cast back to the element type of
    the image. *)
Module FloatCropping.
Import InstanceCropping Float32.

(** A row [(y1, x1, y2, x2)] of a [tf.float32] tensor of shape
    [(n_bboxes, 4)]. *)
Record bbox32 : Type :=
  mkBBox32 { fy1 : binary32; fx1 : binary32; fy2 : binary32; fx2 : binary32 }.

(** The tensor that holds the boxes [bboxes]. *)
Definition to_tensor (b : bbox) : bbox32 :=
  {| fy1 := of_Q (y1 b); fx1 := of_Q (x1 b);
     fy2 := of_Q (y2 b); fx2 := of_Q (x2 b) |}.

Definition bbox32_zip (op : binary32 → binary32 → binary32) (a b : bbox32)
  : bbox32 :=
  {| fy1 := op (fy1 a) (fy1 b); fx1 := op (fx1 a) (fx1 b);
     fy2 := op (fy2 a) (fy2 b); fx2 := op (fx2 a) (fx2 b) |}.

(** [normalize_bboxes], lines 25 to 57: the integer dimensions are cast
    to [tf.float32], 1 is subtracted and the boxes are divided, all in
    binary32. *)
Definition normalize_bboxes (bboxes : list bbox32)
  (image_height image_width : Z) : list bbox32 :=
  let factor :=
    bbox32_zip sub
      {| fy1 := of_Z image_height; fx1 := of_Z image_width;
         fy2 := of_Z image_height; fx2 := of_Z image_width |}
      {| fy1 := of_Z 1; fx1 := of_Z 1; fy2 := of_Z 1; fx2 := of_Z 1 |} in
  let normalized_bboxes := (λ b, bbox32_zip div b factor) <$> bboxes in
  normalized_bboxes.

(** [tf.math.round] of a [tf.float32]: to the nearest integer, halves to
    the even one; infinities and NaN are kept. *)
Definition round (x : binary32) : binary32 :=
  match to_Q x with
  | Some q => of_Z (round_half_even q)
  | None => x
  end.

(** [tf.cast] of a [tf.float32] to [tf.int32]: truncation toward zero.
    For a value that [int32] does not hold (NaN and the infinities
    among them) the conversion instruction of the x86 processors gives
    the least [int32]. *)
Definition to_int32 (x : binary32) : Z :=
  match to_Q x with
  | Some q =>
      let z := truncate q in
      if (- 2 ^ 31 <=? z) && (z <? 2 ^ 31) then z else - 2 ^ 31
  | None => - 2 ^ 31
  end.

(** Lines 166 to 168: the size of the crops, from the first box. *)
Definition box_size (first : bbox32) : Z * Z :=
  (to_int32 (round (add (sub (fy2 first) (fy1 first)) (of_Z 1))),
   to_int32 (round (add (sub (fx2 first) (fx1 first)) (of_Z 1)))).

(** A pixel of a crop, or of a crop cast to an element type: [None] where
    the value is not a finite number or the cast does not define it. *)
Abbreviation pixel := (list (option Q)).

(** The coordinate [in_y] (or [in_x]) of sample [i]: in [float] for a
    crop of more than one sample, through [double] for a crop of one,
    whose expression starts with the [double] constant [0.5]. *)
Definition sample_coordinate (lo hi : binary32) (size crop : Z) (i : nat)
  : binary32 :=
  if (1 <? crop)%Z
  then
    let scale := div (mul (sub hi lo) (of_Z (size - 1))) (of_Z (crop - 1)) in
    add (mul lo (of_Z (size - 1))) (mul (of_Z (Z.of_nat i)) scale)
  else
    of_double
      (double_mul (double_mul double_half (to_double (add lo hi)))
         (double_of_Z (size - 1))).

(** [in_y < 0 || in_y > image_height - 1]; false for NaN. *)
Definition out_of_range (c : binary32) (size : Z) : bool :=
  ltb c (of_Z 0) || ltb (of_Z (size - 1)) c.

(** [static_cast<float>(image(b_in, y, x, d))]. *)
Definition read (px : list (list (list Q))) (y x : Z) (d : nat) : binary32 :=
  of_Q (pixel_at px y x d).

(** One output pixel of the bilinear method, all channels.  The indices
    are [floorf] and [ceilf] of the coordinates; for a coordinate that is
    NaN the conversion to an index is not defined, nor is the pixel. *)
Definition bilinear (px : list (list (list Q))) (in_y in_x : binary32)
  : list binary32 :=
  match to_Q in_y, to_Q in_x with
  | Some qy, Some qx =>
      let top_y_index := Qfloor qy in
      let bottom_y_index := Qceiling qy in
      let y_lerp := sub in_y (of_Z top_y_index) in
      let left_x_index := Qfloor qx in
      let right_x_index := Qceiling qx in
      let x_lerp := sub in_x (of_Z left_x_index) in
      (λ d,
         let top_left := read px top_y_index left_x_index d in
         let top_right := read px top_y_index right_x_index d in
         let bottom_left := read px bottom_y_index left_x_index d in
         let bottom_right := read px bottom_y_index right_x_index d in
         let top := add top_left (mul (sub top_right top_left) x_lerp) in
         let bottom :=
           add bottom_left (mul (sub bottom_right bottom_left) x_lerp) in
         add top (mul (sub bottom top) y_lerp))
      <$> seq 0 (Z.to_nat (depth px))
  | _, _ => replicate (Z.to_nat (depth px)) SpecFloat.S754_nan
  end.

Definition extrapolation_value : binary32 := of_Z 0.

Definition crop_one (px : list (list (list Q))) (crop_height crop_width : Z)
  (box : bbox32) : list (list (list binary32)) :=
  (λ y,
     let in_y :=
       sample_coordinate (fy1 box) (fy2 box) (height px) crop_height y in
     (λ x,
        let in_x :=
          sample_coordinate (fx1 box) (fx2 box) (width px) crop_width x in
        if out_of_range in_y (height px) || out_of_range in_x (width px)
        then replicate (Z.to_nat (depth px)) extrapolation_value
        else bilinear px in_y in_x)
     <$> seq 0 (Z.to_nat crop_width))
  <$> seq 0 (Z.to_nat crop_height).

(** Modelled from the spec: [tf.image.crop_and_resize] is an operation of
    TensorFlow, which is not part of the repository.  The definition
    follows the bilinear method of its CPU kernel, statement by statement
    and in the kernel's arithmetic: a batch of one image, every box read
    from it, samples outside the image set to the extrapolation value 0,
    and an [InvalidArgumentError] for an empty image or a crop size that
    is not positive.  The crops are [tf.float32] whatever the element
    type of the image. *)
Definition crop_and_resize (px : list (list (list Q))) (boxes : list bbox32)
  (crop_size : Z * Z) : result (list (list (list (list binary32)))) :=
  if negb ((0 <? height px) && (0 <? width px))
  then Raise (InvalidArgumentError "image dimensions must be positive")
  else if negb ((0 <? crop_size.1) && (0 <? crop_size.2))
  then Raise (InvalidArgumentError "crop dimensions must be positive")
  else Ok (crop_one px crop_size.1 crop_size.2 <$> boxes).

(** The range of an integer element type. *)
Definition int_range (t : dtype) : option (Z * Z) :=
  match t with
  | uint8 => Some (0, 2 ^ 8 - 1)
  | uint16 => Some (0, 2 ^ 16 - 1)
  | int8 => Some (- 2 ^ 7, 2 ^ 7 - 1)
  | int16 => Some (- 2 ^ 15, 2 ^ 15 - 1)
  | int32 => Some (- 2 ^ 31, 2 ^ 31 - 1)
  | int64 => Some (- 2 ^ 63, 2 ^ 63 - 1)
  | float16 | float32 | float64 => None
  end.

(** [tf.cast] of a [tf.float32] to the element type [t]: truncation
    toward zero for an integer type, rounding for [float16], the same
    number for [float32] and [float64]. *)
Definition cast (t : dtype) (x : binary32) : option Q :=
  match int_range t with
  | Some (lo, hi) =>
      q ← to_Q x;
      let z := truncate q in
      if (lo <=? z) && (z <=? hi) then Some (inject_Z z) else None
  | None =>
      match t, x with
      | float16, SpecFloat.S754_finite s m e =>
          to_Q (SpecFloat.binary_normalize 11 16
                  (SpecFloat.cond_Zopp s (Zpos m)) e s)
      | _, _ => to_Q x
      end
  end.

(** A crop, cast to an element type. *)
Record Crop : Type := mkCrop {
  crop_dtype : dtype;
  crop_pixels : list (list pixel)
}.

Definition cast_crop (t : dtype) (crop : list (list (list binary32))) : Crop :=
  {| crop_dtype := t; crop_pixels := map (map (map (cast t))) crop |}.

(** The row [bboxes[0]], which the two [tf.gather_nd] calls read; the
    indices are out of bounds for an empty tensor. *)
Definition first_box (bboxes : list bbox32) : result bbox32 :=
  match bboxes with
  | b :: _ => Ok b
  | [] => Raise (InvalidArgumentError "indices[0] does not index into param")
  end.

Definition crop_bboxes (image : Image) (bboxes : list bbox32)
  : result (list Crop) :=
  let* first := first_box bboxes in
  let box_size := box_size first in
  let image_height := height (pixels image) in
  let image_width := width (pixels image) in
  let normalized_bboxes := normalize_bboxes bboxes image_height image_width in
  let* crops := crop_and_resize (pixels image) normalized_bboxes box_size in
  Ok (cast_crop (image_dtype image) <$> crops).

(** The pixels of an image, as a crop holds them. *)
Definition of_image (image : Image) : Crop :=
  {| crop_dtype := image_dtype image;
     crop_pixels := map (map (map Some)) (pixels image) |}.

(** The crop has [h] rows of [w] pixels. *)
Definition has_size (h w : Z) (crop : Crop) : Prop :=
  Z.of_nat (length (crop_pixels crop)) = h
  ∧ Forall (λ row, Z.of_nat (length row) = w) (crop_pixels crop).

(** The checks of the crop operation, which depend on the image and on
    the first box only. *)
Definition crop_size_valid (image : Image) (first : bbox32) : bool :=
  (0 <? height (pixels image)) && (0 <? width (pixels image))
  && (0 <? (box_size first).1) && (0 <? (box_size first).2).

End FloatCropping.

(** ** The box (0, 0, 2, 2) in [tf.float32] arithmetic *)

Module UnitBox.
Import InstanceCropping Float32 FloatCropping.

(** The coordinate of sample [i] out of 3 along an axis of [size] pixels,
    for the side from 0 to 2 of the box (0, 0, 2, 2) as [crop_bboxes]
    normalizes it. *)
Definition grid (size : Z) (i : nat) : binary32 :=
  FloatCropping.sample_coordinate
    (div (of_Q 0) (sub (of_Z size) (of_Z 1)))
    (div (of_Q 2) (sub (of_Z size) (of_Z 1)))
    size 3 i.

(** The three samples are the pixel centers 0, 1 and 2, inside the
    image: the rounding of the normalization cancels out. *)
Definition exact_grid (size : Z) : Prop :=
  Forall (λ i, grid size i = of_Z (Z.of_nat i)
               ∧ FloatCropping.out_of_range (of_Z (Z.of_nat i)) size = false)
    [0; 1; 2]%nat.

(** A tensor has one length per axis: every row has the width of the
    first and every pixel the depth of the first. *)
Definition rectangular (px : list (list (list Q))) : Prop :=
  Forall
    (λ row, length row = length (hd [] px)
            ∧ Forall (λ p, length p = length (hd [] (hd [] px))) row)
    px.

(** Every value of the image is a [tf.float32] number that the cast to
    the element type of the image gives back. *)
Definition faithful (image : Image) : Prop :=
  Forall (Forall (Forall (λ v, FloatCropping.cast (image_dtype image) (of_Q v)
                               = Some v)))
    (pixels image).

End UnitBox.

(** ** Frames and the keys that are replicated *)

Module Frames.
Import InstanceCropping.

(** The variable [keys_to_expand] of [transform_dataset], for the test
    example drawn from the input. *)
Definition keys_to_expand (self : InstanceCropper) (test_example : example)
  : list string :=
  let keys_to_expand :=
    filter (λ key, key ∉ input_keys self) (map_to_list test_example).*1 in
  if keep_full_image self then keys_to_expand ++ ["image"] else keys_to_expand.

End Frames.

(** ** [sleap.nn.inference] *)

Module Inference.
Import InstanceCropping.

(** *** Generators *)

(** A generator consumed to its end: the values it yielded, and the
    exception that ended it if it did not return. *)
Record run (A : Type) : Type := mkRun {
  yielded : list A;
  raised : option exn
}.
Arguments mkRun {A} yielded raised.
Arguments yielded {A} r.
Arguments raised {A} r.

(** The generator that yields [xs] and then goes on as [r]. *)
Definition yield_then {A : Type} (xs : list A) (r : run A) : run A :=
  {| yielded := xs ++ yielded r; raised := raised r |}.

(** *** [group_examples_iter] *)

(** [example[key].numpy()] for a scalar integer tensor.  Tensors of
    another kind do not occur under the two keys read here; the model
    rejects them. *)
Definition numpy_scalar (ex : example) (key : string) : result Z :=
  match ex !! key with
  | Some (Int z) => Ok z
  | Some _ => Raise (TypeError "not a scalar integer tensor")
  | None => Raise (KeyError key)
  end.

Definition frame_key (ex : example) : result (Z * Z) :=
  let* video_ind := numpy_scalar ex "video_ind" in
  let* frame_ind := numpy_scalar ex "frame_ind" in
  Ok (video_ind, frame_ind).

(** The body of the generator from the [for] statement on, with the
    variables [last_key] and [key] ([None]: Python's [None], or not yet
    bound) and [batch]. *)
Fixpoint group_loop (last_key key : option (Z * Z)) (batch : list example)
  (examples : list example) : run (option (Z * Z) * list example) :=
  match examples with
  | [] =>
      match batch, key with
      | [], _ => mkRun [] None
      | _ :: _, Some k => mkRun [(Some k, batch)] None
      | _ :: _, None => mkRun [] (Some (UnboundLocalError "key"))
      end
  | ex :: examples' =>
      match frame_key ex with
      | Raise e => mkRun [] (Some e)
      | Ok k =>
          if decide (last_key ≠ Some k)
          then
            yield_then
              (match batch with
               | [] => []
               | _ :: _ => [(last_key, batch)]
               end)
              (group_loop (Some k) (Some k) [ex] examples')
          else group_loop last_key (Some k) (batch ++ [ex]) examples'
      end
  end.

Definition group_examples_iter (examples : list example)
  : run (option (Z * Z) * list example) :=
  group_loop None None [] examples.

(** The decomposition of a sequence into its maximal runs of equal
    keys, in the words of the design document: the groups concatenate to
    the sequence, no group is empty, a group carries the key of all its
    examples, and two groups that follow each other differ in their
    key. *)
Fixpoint adjacent_differ {K V : Type} (groups : list (K * V)) : Prop :=
  match groups with
  | g1 :: ((g2 :: _) as groups') => g1.1 ≠ g2.1 ∧ adjacent_differ groups'
  | _ => True
  end.

Definition maximal_runs (examples : list example)
  (groups : list (option (Z * Z) * list example)) : Prop :=
  concat (groups.*2) = examples
  ∧ Forall (λ g, g.2 ≠ []
                 ∧ ∃ k, g.1 = Some k ∧ Forall (λ ex, frame_key ex = Ok k) g.2)
      groups
  ∧ adjacent_differ groups.

(** *** [safely_generate] *)

(** The records sent to the logger. *)
Inductive log_record : Type :=
| ErrorInSampleIndex (i : nat)
| ExceptionMessage (e : exn)
| EmptyLine
| Finished (i : nat) (elapsed_time : Q)
| FPS (i : nat) (elapsed_time : Q).

(** What the consumer and the logger observe, in order. *)
Inductive event (A : Type) : Type :=
| Yield (x : A)
| Log (r : log_record).
Arguments Yield {A} x.
Arguments Log {A} r.

(** The [finally] clause: it counts the sample unless the sequence is
    done, and reports the progress.  [clock k] is the value of the
    [k]-th call of [time.time()], the call for [t0] being the call 0;
    [ticks] counts the calls made so far. *)
Definition finally (clock : nat → Q) (progress done : bool) (i ticks : nat)
  : nat * nat * list log_record :=
  let i := if done then i else S i in
  if progress && ((negb (i =? 0)%nat && (i mod 1000 =? 0)%nat) || done)
  then
    let elapsed_time := (clock ticks - clock 0%nat)%Q in
    (i, S ticks,
     Finished i elapsed_time
     :: (if Qeq_bool elapsed_time 0 then [] else [FPS i elapsed_time]))
  else (i, ticks, []).

(** The [while not done] loop, on the outcomes of the remaining [next]
    calls of [ds_iter]; after the last of them [next] raises
    [StopIteration]. *)
Fixpoint safely_generate_loop {A : Type} (clock : nat → Q) (progress : bool)
  (i ticks : nat) (ds_iter : list (result A)) : run (event A) :=
  let stop :=
    let '(_, _, logs) := finally clock progress true i ticks in
    mkRun (Log <$> logs) None in
  match ds_iter with
  | [] => stop
  | Ok x :: ds_iter' =>
      let '(i', ticks', logs) := finally clock progress false i ticks in
      yield_then (Yield x :: (Log <$> logs))
        (safely_generate_loop clock progress i' ticks' ds_iter')
  | Raise e :: ds_iter' =>
      if is_StopIteration e then stop
      else
        let '(i', ticks', logs) := finally clock progress false i ticks in
        if is_Exception e
        then
          yield_then
            (Log (ErrorInSampleIndex i) :: Log (ExceptionMessage e)
             :: Log EmptyLine :: (Log <$> logs))
            (safely_generate_loop clock progress i' ticks' ds_iter')
        else mkRun (Log <$> logs) (Some e)
  end.

Definition safely_generate {A : Type} (clock : nat → Q)
  (ds : list (result A)) (progress : bool) : run (event A) :=
  let ds_iter := ds in
  let i := 0%nat in
  safely_generate_loop clock progress i 1 ds_iter.

(** The records the consumer receives, and the sample indices of the
    errors that were logged. *)
Definition records {A : Type} (r : run (event A)) : list A :=
  omap (λ ev, match ev with Yield x => Some x | Log _ => None end) (yielded r).

Definition logged_errors {A : Type} (r : run (event A)) : list nat :=
  omap (λ ev, match ev with
              | Log (ErrorInSampleIndex i) => Some i
              | _ => None
              end) (yielded r).

Definition logged_exceptions {A : Type} (r : run (event A)) : list exn :=
  omap (λ ev, match ev with
              | Log (ExceptionMessage e) => Some e
              | _ => None
              end) (yielded r).

(** Log records of the progress report only. *)
Definition progress_only (logs : list log_record) : Prop :=
  Forall (λ r, match r with
               | Finished _ _ | FPS _ _ => True
               | _ => False
               end) logs.

(** *** [make_predictor_from_cli] *)

(** [s.endswith(suffix)]. *)
Definition endswith (s suffix : string) : bool :=
  let cs := list_ascii_of_string s in
  let sfx := list_ascii_of_string suffix in
  bool_decide (drop (length cs - length sfx) cs = sfx).

Fixpoint drop_while {A : Type} (p : A → bool) (l : list A) : list A :=
  match l with
  | [] => []
  | x :: l' => if p x then drop_while p l' else l
  end.

Definition is_sep (c : ascii) : bool := bool_decide (c = "/"%char).

(** [os.path.dirname] of [posixpath]: the part up to the last slash, with
    its trailing slashes removed unless it consists of slashes only. *)
Definition dirname (p : string) : string :=
  let head :=
    rev (drop_while (λ c, negb (is_sep c)) (rev (list_ascii_of_string p))) in
  let head :=
    if bool_decide (head ≠ []) && negb (forallb is_sep head)
    then rev (drop_while is_sep (rev head))
    else head in
  string_of_list_ascii head.

(** A [dict] from strings to strings, in insertion order. *)
Fixpoint dict_set (d : list (string * string)) (k v : string)
  : list (string * string) :=
  match d with
  | [] => [(k, v)]
  | (k', v') :: d' =>
      if decide (k' = k) then (k, v) :: d' else (k', v') :: dict_set d' k v
  end.

Fixpoint dict_get (d : list (string * string)) (k : string) : option string :=
  match d with
  | [] => None
  | (k', v') :: d' => if decide (k' = k) then Some v' else dict_get d' k
  end.

(** [str(list(d.keys()))]. *)
Definition repr_keys (d : list (string * string)) : string :=
  "[" +:+ String.concat ", " ((λ kv, "'" +:+ kv.1 +:+ "'") <$> d) +:+ "]".

(** The directory stored for a [--model] path. *)
Definition model_dir (model_path : string) : string :=
  if endswith model_path ".json" then dirname model_path else model_path.

(** A predictor is recorded by the model directories it was built from:
    reading the configuration and the weights from them is outside the
    model. *)
Inductive predictor_kind : Type :=
| BottomupPredictor (bottomup_model_path : string)
| SingleInstancePredictor (confmap_model_path : string)
| TopdownPredictor (centroid_model_path confmap_model_path : option string).

(** [TopdownPredictor.from_trained_models]. *)
Definition Topdown_from_trained_models
  (centroid_model_path confmap_model_path : option string)
  : result predictor_kind :=
  match centroid_model_path, confmap_model_path with
  | None, None =>
      Raise (ValueError
               "Either the centroid or topdown confidence map model must be provided.")
  | _, _ => Ok (TopdownPredictor centroid_model_path confmap_model_path)
  end.

Section CommandLine.
(** The tracker type and the two calls into code outside the module:
    [TrainingJobConfig.load_json(model_path)] followed by
    [cfg.model.heads.which_oneof_attrib_name()], and
    [make_tracker_from_cli(args)]. *)
Variable Tracker : Type.
Variable Args : Type.

(** [args.models]: the [--model] options in order, [None] when there
    is none (the option has [action="append"] and no default). *)
Variable models : Args → option (list string).
Variable load_head : string → result string.
Variable make_tracker_from_cli : Args → result (option Tracker).

Record Predictor : Type := mkPredictor {
  kind : predictor_kind;
  tracker : option Tracker
}.

(** The loop over [args.models] that fills [trained_model_paths]. *)
Definition load_model_paths (model_paths : list string)
  : result (list (string * string)) :=
  for_fold
    (λ trained_model_paths model_path,
       let* key := load_head model_path in
       let model_path := model_dir model_path in
       Ok (dict_set trained_model_paths key model_path))
    [] model_paths.

Definition make_predictor_from_cli (args : Args) : result Predictor :=
  let* model_paths :=
    match models args with
    | Some model_paths => Ok model_paths
    | None => Raise (TypeError "'NoneType' object is not iterable")
    end in
  let* trained_model_paths := load_model_paths model_paths in
  let* predictor :=
    match dict_get trained_model_paths "multi_instance" with
    | Some path => Ok (BottomupPredictor path)
    | None =>
        match dict_get trained_model_paths "single_instance" with
        | Some path => Ok (SingleInstancePredictor path)
        | None =>
            match dict_get trained_model_paths "centroid",
                  dict_get trained_model_paths "centered_instance" with
            | Some centroid, Some centered =>
                Topdown_from_trained_models (Some centroid) (Some centered)
            | _, _ =>
                Raise (ValueError
                         ("Unable to run inference with "
                          +:+ repr_keys trained_model_paths +:+ " heads."))
            end
        end
    end in
  let* tracker := make_tracker_from_cli args in
  Ok {| kind := predictor; tracker := tracker |}.

End CommandLine.

End Inference.

(** ** Summaries of a sequence of outcomes *)

Module Iteration.

(** The records among the outcomes, in order. *)
Definition successes {A : Type} (ds : list (result A)) : list A :=
  omap (λ o, match o with Ok x => Some x | Raise _ => None end) ds.

(** The exceptions among the outcomes, in order. *)
Definition failures {A : Type} (ds : list (result A)) : list exn :=
  omap (λ o, match o with Ok _ => None | Raise e => Some e end) ds.

(** The positions of the failed outcomes, the first outcome having the
    position [i]. *)
Fixpoint failure_indices {A : Type} (i : nat) (ds : list (result A))
  : list nat :=
  match ds with
  | [] => []
  | Ok _ :: ds' => failure_indices (S i) ds'
  | Raise _ :: ds' => i :: failure_indices (S i) ds'
  end.

(** An outcome after which the loop of [safely_generate] goes on: a
    record, or an exception that the clause [except Exception] handles. *)
Definition continues {A : Type} (o : result A) : Prop :=
  match o with
  | Ok _ => True
  | Raise e => is_StopIteration e = false ∧ is_Exception e = true
  end.

(** The sample counts of the progress reports in a trace. *)
Definition finished_counts {A : Type} (r : Inference.run (Inference.event A))
  : list nat :=
  omap (λ ev, match ev with
              | Inference.Log (Inference.Finished i _) => Some i
              | _ => None
              end) (Inference.yielded r).

End Iteration.

(** ** [group_examples] *)

Module Grouping.
Import InstanceCropping Inference.

(** [grouped_examples[key].append(example)] on a [defaultdict(list)], kept
    in insertion order: the list of an existing key grows in place, a new
    key enters at the end. *)
Fixpoint append_to {K V : Type} `{EqDecision K} (d : list (K * list V))
  (k : K) (v : V) : list (K * list V) :=
  match d with
  | [] => [(k, [v])]
  | (k', l) :: d' =>
      if decide (k' = k) then (k', l ++ [v]) :: d'
      else (k', l) :: append_to d' k v
  end.

(** The loop of [group_examples], from the dictionary [grouped]. *)
Definition group_examples_from (grouped : list ((Z * Z) * list example))
  (examples : list example) : result (list ((Z * Z) * list example)) :=
  for_fold
    (λ grouped_examples ex,
       let* video_ind := numpy_scalar ex "video_ind" in
       let* frame_ind := numpy_scalar ex "frame_ind" in
       Ok (append_to grouped_examples (video_ind, frame_ind) ex))
    grouped examples.

Definition group_examples (examples : list example)
  : result (list ((Z * Z) * list example)) :=
  group_examples_from [] examples.

(** The key of an example, [(0, 0)] when it has none. *)
Definition key_or_default (ex : example) : Z * Z :=
  match frame_key ex with
  | Ok k => k
  | Raise _ => (0, 0)
  end.

(** The keys of a sequence in the order of their first occurrence. *)
Fixpoint first_occurrences (keys : list (Z * Z)) : list (Z * Z) :=
  match keys with
  | [] => []
  | k :: keys' => k :: filter (λ k', k' ≠ k) (first_occurrences keys')
  end.

End Grouping.

(** ** Which model a head is loaded from *)

Module ModelChoice.

(** The last of the [--model] paths whose configuration has the head
    [head]. *)
Definition last_with_head (head_of : string → string) (head : string)
  (paths : list string) : option string :=
  last (filter (λ p, head_of p = head) paths).

End ModelChoice.

(** ** Paths of the model weights and of the predictions file *)

Module Paths.
Import Inference.

(** [s.startswith(prefix)]. *)
Definition startswith (s prefix : string) : bool :=
  let cs := list_ascii_of_string s in
  let pfx := list_ascii_of_string prefix in
  bool_decide (take (length pfx) cs = pfx).

Fixpoint take_while {A : Type} (p : A → bool) (l : list A) : list A :=
  match l with
  | [] => []
  | x :: l' => if p x then x :: take_while p l' else []
  end.

(** [os.path.join(a, b)] of [posixpath]. *)
Definition join (a b : string) : string :=
  if startswith b "/" then b
  else if bool_decide (a = "") || endswith a "/" then a +:+ b
  else a +:+ "/" +:+ b.

(** [os.path.basename] of [posixpath]: what follows the last slash. *)
Definition basename (p : string) : string :=
  string_of_list_ascii
    (rev (take_while (λ c, negb (is_sep c)) (rev (list_ascii_of_string p)))).

Definition get_keras_model_path (path : string) : string :=
  let path := if endswith path ".json" then dirname path else path in
  join path "best_model.h5".

(** The file [save_predictions_from_cli] writes to: [args.output] when it
    is given and not empty, else a file next to the data. *)
Definition predictions_path (output : option string) (data_path : string)
  : string :=
  match output with
  | Some (String c o) => String c o
  | _ =>
      let out_dir := dirname data_path in
      let out_name := basename data_path +:+ ".predictions.slp" in
      join out_dir out_name
  end.

End Paths.

(** Concrete inputs used to run the definitions. *)

Module Examples.
Import InstanceCropping.

(** One instance with nodes at (0, 0) and (10, 3) and one node that is
    not labelled: its extent is 10. *)
Definition labels_extent_10 : Labels :=
  mkLabels [mkInstance [(Some 0%Q, Some 0%Q); (Some 10%Q, Some 3%Q); (None, None)]].

(** A 4 x 4 and a 2 x 2 image with one channel. *)
Definition image_4x4 : Image :=
  mkImage uint8
    [ [[1%Q]; [2%Q]; [3%Q]; [4%Q]];
      [[5%Q]; [6%Q]; [7%Q]; [8%Q]];
      [[9%Q]; [10%Q]; [11%Q]; [12%Q]];
      [[13%Q]; [14%Q]; [15%Q]; [16%Q]] ].

Definition image_2x2 : Image :=
  mkImage uint8 [ [[1%Q]; [2%Q]]; [[5%Q]; [6%Q]] ].

(** A frame with two instances of two nodes and the frame-level keys
    [video_ind] and [frame_ind]. *)
Definition frame_two_instances : example :=
  <["image" := Img image_4x4]>
  (<["centroids" := Points [(1, 1)%Q; (2, 2)%Q]]>
  (<["instances" := Instances [[(0, 1)%Q; (1, 1)%Q]; [(2, 2)%Q; (3, 2)%Q]]]>
  (<["video_ind" := Int 0]>
  (<["frame_ind" := Int 7]> ∅)))).

Definition cropper_3x3 : InstanceCropper :=
  mkInstanceCropper 3 3 false.

(** An example of frame [frame_ind] of video [video_ind]; [tag] tells
    the examples of a frame apart. *)
Definition keyed_example (video_ind frame_ind tag : Z) : example :=
  <["video_ind" := Int video_ind]>
  (<["frame_ind" := Int frame_ind]>
  (<["tag" := Int tag]> ∅)).

(** Two examples of frame 1, one of frame 2, and again one of frame 1. *)
Definition frames_1_1_2_1 : list example :=
  [keyed_example 0 1 1; keyed_example 0 1 2;
   keyed_example 0 2 3; keyed_example 0 1 4].

(** Command-line arguments: the [--model] options. *)
Definition head_of_path (model_path : string) : string :=
  if Inference.endswith model_path "centroid/training_config.json"
  then "centroid"
  else if Inference.endswith model_path "topdown" then "centered_instance"
  else "other".

(** A clock that advances by one second at every reading. *)
Definition ticking_clock (k : nat) : Q := inject_Z (Z.of_nat k).


(** Five [next] calls of which the second and the fourth fail. *)
Definition outcomes_two_failures : list (result Z) :=
  [Ok 10; Raise (ValueError "bad frame"); Ok 12;
   Raise (RuntimeError "decode"); Ok 14].


(** An example without the key [frame_ind]. *)
Definition example_without_frame_ind : example :=
  <["video_ind" := Int 0]> (<["tag" := Int 9]> ∅).

(** Frames 1, 1 and 2 in order. *)
Definition frames_1_1_2 : list example :=
  [keyed_example 0 1 1; keyed_example 0 1 2; keyed_example 0 2 3].

(** Labels with a second instance whose nodes are not labelled. *)
Definition labels_unlabelled_instance : Labels :=
  {| user_instances :=
       [ {| points_array := [(Some 0%Q, Some 0%Q); (Some 10%Q, Some 4%Q)] |};
         {| points_array := [(None, None); (None, None)] |} ] |}.

(** A frame in which no instance was found. *)
Definition frame_without_instances : example :=
  <["image" := Img image_4x4]>
  (<["centroids" := Points []]>
  (<["instances" := Instances []]>
  (<["video_ind" := Int 0]>
  (<["frame_ind" := Int 8]> ∅)))).


(** A 42 x 42 image with one channel, whose pixel in row [y] and column
    [x] is [4 y + x]. *)
Definition image_42x42 : Image :=
  mkImage uint8
    ((λ y, (λ x, [inject_Z (4 * Z.of_nat y + Z.of_nat x)]) <$> seq 0 42)
     <$> seq 0 42).

End Examples.

(** * Properties *)

(** ** Bounding-box primitives *)

Lemma Ok_inj {A : Type} (a b : A) : Ok a = Ok b → a = b.
Proof. intros H. injection H as H. exact H. Qed.

Lemma bind_Ok {A B : Type} (m : result A) (k : A → result B) (b : B) :
  Py.bind m k = Ok b → ∃ a, m = Ok a ∧ k a = Ok b.
Proof. destruct m as [a | e]; simpl; [eauto | discriminate]. Qed.

Section BoundingBoxes.
Import InstanceCropping.

Lemma inject_Z_pred_nonzero (n : Z) : 1 < n → ¬ (inject_Z n - 1 == 0)%Q.
Proof.
  intros Hn Heq.
  assert (Hz : (inject_Z n == inject_Z 1)%Q).
  { rewrite <- (Qplus_0_r (inject_Z 1)), <- Heq. change (inject_Z 1) with 1%Q. ring. }
  apply -> inject_Z_injective in Hz. lia.
Qed.


Lemma bbox_eq_refl (b : bbox) : bbox_eq b b.
Proof. repeat split; reflexivity. Qed.

Lemma unnormalize_normalize_row (b : bbox) (H W : Z) :
  1 < H → 1 < W →
  bbox_eq (bbox_zip Qmult (bbox_zip Qdiv b (factor H W)) (factor H W)) b.
Proof.
  intros HH HW.
  pose proof (inject_Z_pred_nonzero H HH) as Hh.
  pose proof (inject_Z_pred_nonzero W HW) as Hw.
  destruct b as [by1 bx1 by2 bx2].
  repeat split; simpl; field; assumption.
Qed.

(** C2.  Normalizing divides the y coordinates of every box by
    [image_height - 1] and the x coordinates by [image_width - 1];
    unnormalizing multiplies by the same factors; for dimensions larger
    than 1 the second undoes the first, coordinate by coordinate. *)
Theorem unnormalize_normalize_bboxes (bboxes : list bbox) (H W : Z) :
  1 < H → 1 < W →
  normalize_bboxes bboxes H W
  = (λ b, {| y1 := y1 b / (inject_Z H - 1); x1 := x1 b / (inject_Z W - 1);
             y2 := y2 b / (inject_Z H - 1); x2 := x2 b / (inject_Z W - 1) |}%Q)
    <$> bboxes
  ∧ unnormalize_bboxes bboxes H W
    = (λ b, {| y1 := y1 b * (inject_Z H - 1); x1 := x1 b * (inject_Z W - 1);
               y2 := y2 b * (inject_Z H - 1); x2 := x2 b * (inject_Z W - 1) |}%Q)
      <$> bboxes
  ∧ Forall2 bbox_eq
      (unnormalize_bboxes (normalize_bboxes bboxes H W) H W) bboxes.
Proof.
  intros HH HW. split; [reflexivity | split; [reflexivity |]].
  unfold unnormalize_bboxes, normalize_bboxes.
  induction bboxes as [| b bs IH]; simpl.
  - constructor.
  - constructor; [| exact IH].
    apply unnormalize_normalize_row; assumption.
Qed.

Lemma unnormalize_normalize_bboxes_witness :
  Forall2 bbox_eq
    (unnormalize_bboxes
       (normalize_bboxes [mkBBox 0 0 2 2; mkBBox (1 # 2) 3 (7 # 2) 5] 4 7) 4 7)
    [mkBBox 0 0 2 2; mkBBox (1 # 2) 3 (7 # 2) 5].
Proof.
  apply (unnormalize_normalize_bboxes
           [mkBBox 0 0 2 2; mkBBox (1 # 2) 3 (7 # 2) 5] 4 7); lia.
Defined.




End BoundingBoxes.

(** ** Crop size of a label set *)

Section CropSize.
Import InstanceCropping.

Lemma np_unbound : np module_globals = Raise (NameError "np").
Proof. reflexivity. Qed.

Lemma np_bound : np globals_with_numpy = Ok ().
Proof. reflexivity. Qed.

(** C9.  In the module as it is written, [np] is not bound: whatever the
    labels, the padding and the stride, the call ends in
    [NameError] and returns no crop size. *)
Theorem find_instance_crop_size_NameError (labels : Labels)
  (padding maximum_stride : Z) :
  find_instance_crop_size module_globals labels padding maximum_stride
  = Raise (NameError "np").
Proof.
  unfold find_instance_crop_size.
  destruct (user_instances labels) as [| inst insts]; simpl.
  - rewrite np_unbound. reflexivity.
  - unfold update_max_length. rewrite np_unbound. reflexivity.
Qed.

(** The NaN-skipping reduction is the left fold over the entries that
    are present. *)
Lemma nan_fold_visible (op : Q → Q → Q) (c : list (option Q)) (acc : option Q) :
  foldl (NumPy.nan_step op) acc c
  = match acc, omap id c with
    | Some a, vs => Some (foldl op a vs)
    | None, [] => None
    | None, v :: vs => Some (foldl op v vs)
    end.
Proof.
  revert acc. induction c as [| [q |] c IH]; intros acc; simpl.
  - destruct acc; reflexivity.
  - rewrite IH. destruct acc; reflexivity.
  - rewrite IH. destruct acc; reflexivity.
Qed.

Section Folds.
Variable op : Q → Q → Q.
Hypothesis op_compat : Proper (Qeq ==> Qeq ==> Qeq) op.
Hypothesis op_assoc : ∀ a b c, (op a (op b c) == op (op a b) c)%Q.
Hypothesis op_comm : ∀ a b, (op a b == op b a)%Q.

Lemma foldr_op_shift (a x : Q) (l : list Q) :
  (foldr op (op a x) l == op x (foldr op a l))%Q.
Proof.
  induction l as [| y l IH]; simpl.
  - apply op_comm.
  - rewrite IH, op_assoc, (op_comm y x), <- op_assoc. reflexivity.
Qed.

Lemma foldl_foldr_op (a : Q) (l : list Q) :
  (foldl op a l == foldr op a l)%Q.
Proof.
  revert a. induction l as [| x l IH]; intros a; simpl.
  - reflexivity.
  - rewrite IH. apply foldr_op_shift.
Qed.
End Folds.

Lemma has_visible_omap (c : list (option Q)) :
  has_visible c → ∃ v vs, omap id c = v :: vs.
Proof.
  intros [q Hq].
  assert (Hin : q ∈ omap id c) by (apply list_elem_of_omap; eauto).
  destruct (omap id c) as [| v vs]; [inversion Hin | eauto].
Qed.

(** On a column with a visible entry, [np.nanmax(c) - np.nanmin(c)] is
    the extent of the column. *)
Lemma nanmax_minus_nanmin (c : list (option Q)) :
  has_visible c →
  ∃ hi lo, NumPy.nanmax c = Ok (Some hi) ∧ NumPy.nanmin c = Ok (Some lo)
           ∧ (hi - lo == extent c)%Q.
Proof.
  intros Hv. destruct (has_visible_omap c Hv) as (v & vs & Hvs).
  unfold NumPy.nanmax, NumPy.nanmin, NumPy.nan_reduce, extent.
  destruct c as [| e c]; [discriminate |].
  rewrite !nan_fold_visible, Hvs.
  eexists _, _; split; [reflexivity | split; [reflexivity |]].
  rewrite (foldl_foldr_op Qmax Q.max_compat Q.max_assoc Q.max_comm).
  rewrite (foldl_foldr_op Qmin Q.min_compat Q.min_assoc Q.min_comm).
  reflexivity.
Qed.

Lemma update_max_length_spec (s : NumPy.scalar) (a : Q) (c : list (option Q)) :
  NumPy.to_float64 s = Some a →
  has_visible c →
  ∃ r, update_max_length globals_with_numpy s c = Ok (NumPy.NpFloat64 (Some r))
       ∧ (r == Qmax a (extent c))%Q.
Proof.
  intros Hs Hv.
  destruct (nanmax_minus_nanmin c Hv) as (hi & lo & Hhi & Hlo & Hext).
  unfold update_max_length. rewrite np_bound. simpl.
  rewrite Hhi. simpl. rewrite Hlo. simpl. rewrite Hs. simpl.
  eexists; split; [reflexivity |].
  apply Q.max_compat; [reflexivity | exact Hext].
Qed.

Lemma max_instance_extent_nonneg (insts : list Instance) :
  (0 <= foldr Qmax 0 (instance_extent <$> insts))%Q.
Proof.
  induction insts as [| inst insts IH]; simpl.
  - apply Qle_refl.
  - eapply Qle_trans; [exact IH | apply Q.le_max_r].
Qed.

Lemma crop_size_loop (insts : list Instance) (s : NumPy.scalar) (a : Q) :
  NumPy.to_float64 s = Some a →
  (0 <= a)%Q →
  Forall visible_instance insts →
  ∃ s' r,
    for_fold
      (λ max_length inst,
         let pts := points_array inst in
         let* max_length :=
           update_max_length globals_with_numpy max_length (pts.*1) in
         update_max_length globals_with_numpy max_length (pts.*2))
      s insts = Ok s'
    ∧ NumPy.to_float64 s' = Some r
    ∧ (r == Qmax a (foldr Qmax 0 (instance_extent <$> insts)))%Q.
Proof.
  intros Hs Ha Hvis. revert s a Hs Ha.
  induction Hvis as [| inst insts [Hx Hy] _ IH]; intros s a Hs Ha; simpl.
  - exists s, a. repeat split; [exact Hs |].
    symmetry. apply Q.max_l. exact Ha.
  - destruct (update_max_length_spec s a _ Hs Hx) as (r1 & E1 & Hr1).
    rewrite E1. simpl.
    destruct (update_max_length_spec (NumPy.NpFloat64 (Some r1)) r1 _ eq_refl Hy)
      as (r2 & E2 & Hr2).
    rewrite E2. simpl.
    assert (Hr2pos : (0 <= r2)%Q).
    { rewrite Hr2, Hr1. eapply Qle_trans; [exact Ha |].
      eapply Qle_trans; [apply Q.le_max_l | apply Q.le_max_l]. }
    destruct (IH (NumPy.NpFloat64 (Some r2)) r2 eq_refl Hr2pos)
      as (s' & r & E & Hs' & Hr).
    exists s', r. repeat split; [exact E | exact Hs' |].
    rewrite Hr, Hr2, Hr1. unfold instance_extent.
    rewrite <- !Q.max_assoc. reflexivity.
Qed.




End CropSize.

(** ** Cropping *)

Section Cropping.
Import InstanceCropping.


End Cropping.

(** ** Cropping in [tf.float32] arithmetic *)

Section FloatCrops.
Import InstanceCropping Float32 FloatCropping.

Lemma float_crop_bboxes_cons (image : Image) (first : bbox32)
  (rest : list bbox32) :
  crop_bboxes image (first :: rest)
  = if negb ((0 <? height (pixels image)) && (0 <? width (pixels image)))
    then Raise (InvalidArgumentError "image dimensions must be positive")
    else if negb ((0 <? (box_size first).1) && (0 <? (box_size first).2))
    then Raise (InvalidArgumentError "crop dimensions must be positive")
    else Ok (cast_crop (image_dtype image)
             <$> (crop_one (pixels image) (box_size first).1 (box_size first).2
                  <$> normalize_bboxes (first :: rest) (height (pixels image))
                        (width (pixels image)))).
Proof.
  unfold crop_bboxes, crop_and_resize. cbn [first_box bind].
  destruct (negb ((0 <? height (pixels image)) && (0 <? width (pixels image))));
    [reflexivity |].
  destruct (negb ((0 <? (box_size first).1) && (0 <? (box_size first).2)));
    reflexivity.
Qed.

Lemma float_crop_one_size (px : list (list (list Q))) (h w : Z) (t : dtype)
  (b : bbox32) :
  0 < h → 0 < w → has_size h w (cast_crop t (crop_one px h w b)).
Proof.
  intros Hh Hw.
  unfold has_size, cast_crop, crop_one. cbn [crop_pixels]. split.
  - rewrite length_map, length_fmap, length_seq. lia.
  - rewrite Forall_map, Forall_fmap. apply Forall_true. intros y.
    cbn. rewrite length_map, length_fmap, length_seq. lia.
Qed.

(** C10.  The crop size is read from the first box of the batch alone,
    as [round(y2 - y1 + 1)] by [round(x2 - x1 + 1)]: the call succeeds
    exactly when the image is not empty and that size is positive,
    whatever the extents of the other boxes; it then returns one crop
    per box, all of them of the size of the first box, and the crop of
    each box is the resampling of that box to this size, as
    [tf.image.crop_and_resize] gives it for the box alone, cast to the
    element type of the image. *)
Theorem crop_bboxes_size_of_first_box (image : Image) (first : bbox32)
  (rest : list bbox32) :
  let h := to_int32 (round (add (sub (fy2 first) (fy1 first)) (of_Z 1))) in
  let w := to_int32 (round (add (sub (fx2 first) (fx1 first)) (of_Z 1))) in
  match crop_bboxes image (first :: rest) with
  | Ok crops =>
      (0 <? height (pixels image)) && (0 <? width (pixels image))
      && (0 <? h) && (0 <? w) = true
      ∧ length crops = S (length rest)
      ∧ Forall (has_size h w) crops
      ∧ ∀ i b, (first :: rest) !! i = Some b →
               ∃ resampled,
                 crop_and_resize (pixels image)
                   (normalize_bboxes [b] (height (pixels image))
                      (width (pixels image)))
                   (h, w)
                 = Ok [resampled]
                 ∧ crops !! i = Some (cast_crop (image_dtype image) resampled)
  | Raise e =>
      (0 <? height (pixels image)) && (0 <? width (pixels image))
      && (0 <? h) && (0 <? w) = false
      ∧ crop_bboxes image [first] = Raise e
  end.
Proof.
  intros h w.
  rewrite (float_crop_bboxes_cons image first rest),
    (float_crop_bboxes_cons image first []).
  change (box_size first) with (h, w). cbn [fst snd].
  unfold crop_and_resize. cbn [fst snd].
  destruct (0 <? height (pixels image)); cbn [negb andb]; [| split; reflexivity].
  destruct (0 <? width (pixels image)); cbn [negb andb]; [| split; reflexivity].
  destruct (Z.ltb_spec 0 h) as [Hh | Hh]; cbn [negb andb];
    [| split; reflexivity].
  destruct (Z.ltb_spec 0 w) as [Hw | Hw]; cbn [negb andb];
    [| split; reflexivity].
  split; [reflexivity | split; [| split]].
  - unfold normalize_bboxes. rewrite !length_fmap. reflexivity.
  - rewrite Forall_fmap, Forall_fmap. apply Forall_true. intros b.
    apply float_crop_one_size; assumption.
  - intros i b Hb. eexists. split; [reflexivity |].
    unfold normalize_bboxes. cbv zeta.
    rewrite !list_lookup_fmap, Hb. reflexivity.
Qed.

(** A batch of two boxes of different extents: the box of 2 x 2 pixels
    is resampled to the 3 x 3 size of the first box. *)
Example crop_bboxes_mixed_extents :
  crop_bboxes Examples.image_4x4
    [to_tensor (mkBBox 0 0 2 2); to_tensor (mkBBox 0 0 1 1)]
  = Ok [ mkCrop uint8
           [ [[Some 1%Q]; [Some 2%Q]; [Some 3%Q]];
             [[Some 5%Q]; [Some 6%Q]; [Some 7%Q]];
             [[Some 9%Q]; [Some 10%Q]; [Some 11%Q]] ];
         mkCrop uint8
           [ [[Some 1%Q]; [Some 1%Q]; [Some 2%Q]];
             [[Some 3%Q]; [Some 3%Q]; [Some 4%Q]];
             [[Some 5%Q]; [Some 5%Q]; [Some 6%Q]] ] ].
Proof. vm_compute. reflexivity. Qed.

(** On an image smaller than the box the crop keeps the size of the box,
    filled with 0 outside the image. *)
Example crop_bboxes_small_image :
  crop_bboxes Examples.image_2x2 [to_tensor (mkBBox 0 0 2 2)]
  = Ok [ mkCrop uint8
           [ [[Some 1%Q]; [Some 2%Q]; [Some 0%Q]];
             [[Some 5%Q]; [Some 6%Q]; [Some 0%Q]];
             [[Some 0%Q]; [Some 0%Q]; [Some 0%Q]] ] ].
Proof. vm_compute. reflexivity. Qed.

End FloatCrops.

(** C7.  On the 42 x 42 image whose pixel in row [y] and column [x] is
    [4 y + x], the crop of the box (0, 0, 2, 2) is not the slice
    [image[0:3, 0:3]].  The normalized limit [2 / 41] is rounded to
    binary32, which puts the second and third sample just below the
    pixel centers 1 and 2; the interpolated values fall just below the
    pixels and the cast to [uint8] truncates them. *)
Theorem crop_bboxes_unit_box_image_42 :
  FloatCropping.crop_bboxes Examples.image_42x42
    [FloatCropping.to_tensor (InstanceCropping.mkBBox 0 0 2 2)]
  = Ok [ FloatCropping.mkCrop InstanceCropping.uint8
           [ [[Some 0%Q]; [Some 0%Q]; [Some 1%Q]];
             [[Some 3%Q]; [Some 4%Q]; [Some 5%Q]];
             [[Some 7%Q]; [Some 9%Q]; [Some 10%Q]] ] ]
  ∧ FloatCropping.of_image
      (InstanceCropping.slice Examples.image_42x42 0 3 0 3)
    = FloatCropping.mkCrop InstanceCropping.uint8
        [ [[Some 0%Q]; [Some 1%Q]; [Some 2%Q]];
          [[Some 4%Q]; [Some 5%Q]; [Some 6%Q]];
          [[Some 8%Q]; [Some 9%Q]; [Some 10%Q]] ]
  ∧ FloatCropping.sample_coordinate (Float32.of_Z 0)
      (Float32.div (Float32.of_Z 2) (Float32.of_Z 41)) 42 3 1
    = SpecFloat.S754_finite false 16777215 (-24).
Proof. vm_compute. repeat split. Qed.

(** ** Instance cropping as a dataset stage *)

Section FanOut.
Import InstanceCropping.








Lemma dataset_unbatch_app (ds1 ds2 : list (result batched)) :
  dataset_unbatch (ds1 ++ ds2) = dataset_unbatch ds1 ++ dataset_unbatch ds2.
Proof. unfold dataset_unbatch. apply bind_app. Qed.

Lemma dataset_map_app {A B : Type} (f : A → result B) (ds1 ds2 : list (result A)) :
  dataset_map f (ds1 ++ ds2) = dataset_map f ds1 ++ dataset_map f ds2.
Proof. unfold dataset_map. apply fmap_app. Qed.



End FanOut.

(** ** Grouping examples by frame *)

Section Grouping.
Import InstanceCropping Inference.

Lemma yield_then_nil {A : Type} (r : run A) : yield_then [] r = r.
Proof. destruct r. reflexivity. Qed.

Lemma adjacent_differ_cons {K V : Type} (g : K * V) (groups : list (K * V)) :
  (∀ g', head groups = Some g' → g.1 ≠ g'.1) →
  adjacent_differ groups → adjacent_differ (g :: groups).
Proof.
  intros Hhead Hadj. destruct groups as [| g' groups]; simpl; [exact I |].
  split; [apply Hhead; reflexivity | exact Hadj].
Qed.

(** The loop, entered with a batch of examples of key [k0] under
    construction, yields the maximal runs of the batch followed by the
    remaining examples; the first group has the key [k0]. *)
Lemma group_loop_runs (examples : list example) :
  Forall (λ ex, ∃ k, frame_key ex = Ok k) examples →
  ∀ (k0 : Z * Z) (batch : list example),
    batch ≠ [] → Forall (λ ex, frame_key ex = Ok k0) batch →
    ∃ b groups,
      group_loop (Some k0) (Some k0) batch examples
      = mkRun ((Some k0, b) :: groups) None
      ∧ maximal_runs (batch ++ examples) ((Some k0, b) :: groups).
Proof.
  induction 1 as [| ex examples [k Hk] _ IH]; intros k0 batch Hne Hbatch.
  - exists batch, []. destruct batch as [| e batch]; [congruence |].
    split; [reflexivity |]. unfold maximal_runs. simpl.
    rewrite !app_nil_r. split; [reflexivity |]. split; [| exact I].
    constructor; [| constructor]. simpl. split; [discriminate | eauto].
  - simpl. rewrite Hk.
    destruct (decide (Some k0 ≠ Some k)) as [Hneq | Heq].
    + destruct (IH k [ex]) as (b & groups & E & Hcat & Hall & Hadj).
      { discriminate. }
      { constructor; [exact Hk | constructor]. }
      rewrite E. destruct batch as [| e batch]; [congruence |].
      exists (e :: batch), ((Some k, b) :: groups).
      split; [reflexivity |]. split; [| split].
      * simpl in *. rewrite Hcat. reflexivity.
      * constructor; [| exact Hall]. simpl. split; [discriminate | eauto].
      * simpl. split; [exact Hneq | exact Hadj].
    + apply dec_stable in Heq. injection Heq as <-.
      destruct (IH k0 (batch ++ [ex])) as (b & groups & E & Hruns).
      { destruct batch; discriminate. }
      { apply Forall_app. split; [exact Hbatch |].
        constructor; [exact Hk | constructor]. }
      exists b, groups. split; [exact E |].
      rewrite <- app_assoc in Hruns. exact Hruns.
Qed.

Lemma group_examples_iter_runs (examples : list example) :
  Forall (λ ex, ∃ k, frame_key ex = Ok k) examples →
  ∃ groups,
    group_examples_iter examples = mkRun groups None
    ∧ maximal_runs examples groups.
Proof.
  intros Hex. unfold group_examples_iter.
  destruct Hex as [| ex examples [k Hk] Hex].
  - exists []. split; [reflexivity |].
    split; [reflexivity | split; [constructor | exact I]].
  - simpl. rewrite Hk.
    destruct (decide (None ≠ Some k)) as [_ | Habs];
      [| exfalso; apply Habs; discriminate].
    rewrite yield_then_nil.
    destruct (group_loop_runs examples Hex k [ex]) as (b & groups & E & Hruns).
    { discriminate. }
    { constructor; [exact Hk | constructor]. }
    eauto.
Qed.

(** Where the key changes between two neighbours, the grouping of the
    sequence is the grouping of the part before the change followed by
    the grouping of the part after it. *)
Lemma group_loop_split (l : list example) :
  Forall (λ ex, ∃ k, frame_key ex = Ok k) l →
  ∀ last_key key batch (a b : example) (r : list example) (ka kb : Z * Z),
    frame_key a = Ok ka → frame_key b = Ok kb → ka ≠ kb →
    yielded (group_loop last_key key batch (l ++ a :: b :: r))
    = yielded (group_loop last_key key batch (l ++ [a]))
      ++ yielded (group_examples_iter (b :: r)).
Proof.
  induction 1 as [| c l [kc Hc] _ IH];
    intros last_key key batch a b r ka kb Ha Hb Hab.
  - unfold group_examples_iter. simpl. rewrite Ha, Hb.
    destruct (decide (None ≠ Some kb)) as [_ | Habs];
      [| exfalso; apply Habs; discriminate].
    rewrite yield_then_nil.
    destruct (decide (last_key ≠ Some ka)) as [Hneq | Heq].
    + simpl. rewrite ?Hb.
      destruct (decide (Some ka ≠ Some kb)) as [_ | Habs];
        [| exfalso; apply Habs; congruence].
      simpl. rewrite <- app_assoc. reflexivity.
    + apply dec_stable in Heq. subst last_key. simpl. rewrite ?Hb.
      destruct (decide (Some ka ≠ Some kb)) as [_ | Habs];
        [| exfalso; apply Habs; congruence].
      destruct batch; reflexivity.
  - simpl. rewrite Hc.
    destruct (decide (last_key ≠ Some kc)).
    + simpl. rewrite (IH _ _ _ a b r ka kb Ha Hb Hab).
      apply app_assoc.
    + apply (IH _ _ _ a b r ka kb Ha Hb Hab).
Qed.

Lemma key_change_between (mid : list example) :
  Forall (λ ex, ∃ k, frame_key ex = Ok k) mid →
  ∀ (x : example) (k : Z * Z),
    frame_key x = Ok k →
    (∃ m, m ∈ mid ∧ frame_key m ≠ Ok k) →
    ∃ mid1 mid2 pre a b post ka kb,
      mid = mid1 ++ mid2 ∧ x :: mid1 = pre ++ [a] ∧ mid2 = b :: post
      ∧ frame_key a = Ok ka ∧ frame_key b = Ok kb ∧ ka ≠ kb.
Proof.
  induction 1 as [| m0 mid [k0 Hk0] _ IH]; intros x k Hx (m & Hm & Hmk).
  - inversion Hm.
  - destruct (decide (k = k0)) as [-> | Hne].
    + apply elem_of_cons in Hm as [-> | Hm]; [congruence |].
      destruct (IH m0 k0 Hk0) as
        (mid1 & mid2 & pre & a & b & post & ka & kb
         & -> & Hpre & -> & Ha & Hb & Hab); [eauto |].
      exists (m0 :: mid1), (b :: post), (x :: pre), a, b, post, ka, kb.
      repeat split; try assumption. rewrite Hpre. reflexivity.
    + exists [], (m0 :: mid), [], x, m0, mid, k, k0.
      repeat split; assumption.
Qed.

(** C6.  On a sequence of examples that carry their frame key, the
    generator returns after yielding the maximal runs of consecutive
    examples of equal [(video_ind, frame_ind)], in order: the batches
    concatenate to the input.  Two examples of equal key with an example
    of another key between them are yielded in separate groups: the
    groups are those of the part up to a point between the two, followed
    by those of the rest. *)
Theorem group_examples_iter_contiguous_runs (examples : list example) :
  Forall (λ ex, ∃ k, frame_key ex = Ok k) examples →
  ∃ groups,
    group_examples_iter examples = mkRun groups None
    ∧ maximal_runs examples groups
    ∧ ∀ l1 x mid y l2 k,
        examples = l1 ++ x :: mid ++ y :: l2 →
        frame_key x = Ok k → frame_key y = Ok k →
        (∃ m, m ∈ mid ∧ frame_key m ≠ Ok k) →
        ∃ mid1 mid2,
          mid = mid1 ++ mid2
          ∧ groups
            = yielded (group_examples_iter (l1 ++ x :: mid1))
              ++ yielded (group_examples_iter (mid2 ++ y :: l2)).
Proof.
  intros Hex.
  destruct (group_examples_iter_runs examples Hex) as (groups & E & Hruns).
  exists groups. split; [exact E |]. split; [exact Hruns |].
  intros l1 x mid y l2 k -> Hx Hy Hm.
  apply Forall_app in Hex as [Hl1 Hrest].
  apply Forall_cons in Hrest as [_ Hrest].
  apply Forall_app in Hrest as [Hmid _].
  destruct (key_change_between mid Hmid x k Hx Hm) as
    (mid1 & mid2 & pre & a & b & post & ka & kb
     & -> & Hpre & -> & Ha & Hb & Hab).
  exists mid1, (b :: post). split; [reflexivity |].
  assert (Hgroups : groups
                    = yielded (group_examples_iter
                                 (l1 ++ x :: (mid1 ++ b :: post) ++ y :: l2)))
    by (rewrite E; reflexivity).
  rewrite Hgroups.
  assert (Hpre_ok : Forall (λ ex, ∃ k, frame_key ex = Ok k) (l1 ++ pre)).
  { apply Forall_app. split; [exact Hl1 |].
    assert (Hxm : Forall (λ ex, ∃ k, frame_key ex = Ok k) (pre ++ [a])).
    { rewrite <- Hpre. constructor; [eauto |].
      apply Forall_app in Hmid as [Hmid1 _]. exact Hmid1. }
    apply Forall_app in Hxm as [Hp _]. exact Hp. }
  replace (l1 ++ x :: (mid1 ++ b :: post) ++ y :: l2)
    with ((l1 ++ pre) ++ a :: b :: (post ++ y :: l2)).
  2:{ rewrite <- !app_assoc. f_equal.
      change (x :: mid1 ++ (b :: post) ++ y :: l2)
        with ((x :: mid1) ++ (b :: post) ++ y :: l2).
      rewrite Hpre, <- app_assoc. reflexivity. }
  replace (l1 ++ x :: mid1) with ((l1 ++ pre) ++ [a]).
  2:{ rewrite <- app_assoc, <- Hpre. reflexivity. }
  unfold group_examples_iter at 1 2.
  apply (group_loop_split (l1 ++ pre) Hpre_ok None None [] a b
           (post ++ y :: l2) ka kb Ha Hb Hab).
Qed.

Lemma group_examples_iter_contiguous_runs_witness :
  ∃ groups,
    group_examples_iter Examples.frames_1_1_2_1 = mkRun groups None
    ∧ maximal_runs Examples.frames_1_1_2_1 groups
    ∧ ∀ l1 x mid y l2 k,
        Examples.frames_1_1_2_1 = l1 ++ x :: mid ++ y :: l2 →
        frame_key x = Ok k → frame_key y = Ok k →
        (∃ m, m ∈ mid ∧ frame_key m ≠ Ok k) →
        ∃ mid1 mid2,
          mid = mid1 ++ mid2
          ∧ groups
            = yielded (group_examples_iter (l1 ++ x :: mid1))
              ++ yielded (group_examples_iter (mid2 ++ y :: l2)).
Proof.
  apply (group_examples_iter_contiguous_runs Examples.frames_1_1_2_1).
  repeat constructor; eexists; vm_compute; reflexivity.
Defined.

(** The two examples of frame 1 that follow each other form one group;
    the example of frame 1 that comes after frame 2 forms a group of its
    own. *)
Example group_examples_iter_out_of_order :
  group_examples_iter Examples.frames_1_1_2_1
  = mkRun
      [ (Some (0, 1), [Examples.keyed_example 0 1 1; Examples.keyed_example 0 1 2]);
        (Some (0, 2), [Examples.keyed_example 0 2 3]);
        (Some (0, 1), [Examples.keyed_example 0 1 4]) ]
      None.
Proof. vm_compute. reflexivity. Qed.

End Grouping.

(** ** Safe iteration *)

Section SafeIteration.
Import Inference.
Context {A : Type}.
Variable clock : nat → Q.
Variable progress : bool.

Lemma finally_spec (done : bool) (i ticks : nat) :
  ∃ ticks' logs,
    finally clock progress done i ticks
    = (if done then i else S i, ticks', logs)
    ∧ progress_only logs.
Proof.
  unfold finally, progress_only.
  destruct (progress && _).
  - eexists _, _. split; [reflexivity |].
    destruct (Qeq_bool _ 0); repeat constructor.
  - eexists _, _. split; [reflexivity | constructor].
Qed.

Lemma records_yield_then (evs : list (event A)) (r : run (event A)) :
  records (yield_then evs r)
  = omap (λ ev, match ev with Yield x => Some x | Log _ => None end) evs
    ++ records r.
Proof. unfold records, yield_then. simpl. apply omap_app. Qed.

Lemma logged_errors_yield_then (evs : list (event A)) (r : run (event A)) :
  logged_errors (yield_then evs r)
  = omap (λ ev : event A, match ev with
                          | Log (ErrorInSampleIndex i) => Some i
                          | _ => None
                          end) evs
    ++ logged_errors r.
Proof. unfold logged_errors, yield_then. simpl. apply omap_app. Qed.

Lemma logged_exceptions_yield_then (evs : list (event A)) (r : run (event A)) :
  logged_exceptions (yield_then evs r)
  = omap (λ ev : event A, match ev with
                          | Log (ExceptionMessage e) => Some e
                          | _ => None
                          end) evs
    ++ logged_exceptions r.
Proof. unfold logged_exceptions, yield_then. simpl. apply omap_app. Qed.

Lemma raised_yield_then (evs : list (event A)) (r : run (event A)) :
  raised (yield_then evs r) = raised r.
Proof. reflexivity. Qed.

Lemma progress_logs_silent (logs : list log_record) :
  progress_only logs →
  omap (λ ev : event A, match ev with Yield x => Some x | Log _ => None end)
    (Log <$> logs) = []
  ∧ omap (λ ev : event A, match ev with
                          | Log (ErrorInSampleIndex i) => Some i
                          | _ => None
                          end) (Log <$> logs) = []
  ∧ omap (λ ev : event A, match ev with
                          | Log (ExceptionMessage e) => Some e
                          | _ => None
                          end) (Log <$> logs) = [].
Proof.
  induction 1 as [| r logs Hr _ (IH1 & IH2 & IH3)]; [repeat split |].
  destruct r; try contradiction; simpl; auto.
Qed.

(** A summary of a run: the records received, the indices and the
    exceptions of the logged errors, and how the generator ended. *)
Lemma loop_stop (i ticks : nat) :
  let r := safely_generate_loop (A := A) clock progress i ticks [] in
  records r = [] ∧ logged_errors r = [] ∧ logged_exceptions r = []
  ∧ raised r = None.
Proof.
  simpl. destruct (finally_spec true i ticks) as (ticks' & logs & E & Hlogs).
  rewrite E. destruct (progress_logs_silent logs Hlogs) as (H1 & H2 & H3).
  unfold records, logged_errors, logged_exceptions. simpl.
  repeat split; assumption.
Qed.

(** Records that are produced are passed on, in order, and counted. *)
Lemma loop_produced (pre : list A) :
  ∀ (i ticks : nat) (rest : list (result A)),
  ∃ ticks',
    let r := safely_generate_loop clock progress i ticks ((Ok <$> pre) ++ rest) in
    let r' := safely_generate_loop clock progress (i + length pre) ticks' rest in
    records r = pre ++ records r'
    ∧ logged_errors r = logged_errors r'
    ∧ logged_exceptions r = logged_exceptions r'
    ∧ raised r = raised r'.
Proof.
  induction pre as [| x pre IH]; intros i ticks rest.
  - exists ticks. simpl. rewrite Nat.add_0_r. repeat split.
  - destruct (finally_spec false i ticks) as (ticks1 & logs & E & Hlogs).
    destruct (IH (S i) ticks1 rest) as (ticks' & H1 & H2 & H3 & H4).
    exists ticks'. cbn zeta in *.
    change ((Ok <$> x :: pre) ++ rest) with (Ok x :: ((Ok <$> pre) ++ rest)).
    cbn [safely_generate_loop]. rewrite E.
    rewrite records_yield_then, logged_errors_yield_then,
      logged_exceptions_yield_then, raised_yield_then.
    destruct (progress_logs_silent logs Hlogs) as (L1 & L2 & L3).
    cbn [omap list_omap]. rewrite L1, L2, L3.
    replace (i + length (x :: pre))%nat with (S i + length pre)%nat
      by (simpl; lia).
    rewrite H1, H2, H3. repeat split. exact H4.
Qed.

(** C1.  When producing one record raises an exception (an instance of
    [Exception]) other than [StopIteration] and the other records are
    produced, the consumer receives the records that were produced, in
    their order; one error is logged, with the index of the failing
    record and its exception; the generator returns at the end of the
    sequence and raises nothing. *)
Theorem safely_generate_skips_failing_record (pre post : list A) (e : exn) :
  is_Exception e = true → is_StopIteration e = false →
  let r := safely_generate clock
             ((Ok <$> pre) ++ Raise e :: (Ok <$> post)) progress in
  records r = pre ++ post
  ∧ logged_errors r = [length pre]
  ∧ logged_exceptions r = [e]
  ∧ raised r = None.
Proof.
  intros Hexc Hstop. unfold safely_generate. cbn zeta.
  destruct (loop_produced pre 0 1 (Raise e :: (Ok <$> post)))
    as (ticks1 & H1 & H2 & H3 & H4).
  cbn zeta in *. rewrite H1, H2, H3, H4. clear H1 H2 H3 H4.
  cbn [safely_generate_loop]. rewrite Hstop, Hexc.
  destruct (finally_spec false (0 + length pre) ticks1)
    as (ticks2 & logs & E & Hlogs).
  rewrite E.
  rewrite records_yield_then, logged_errors_yield_then,
    logged_exceptions_yield_then, raised_yield_then.
  destruct (progress_logs_silent logs Hlogs) as (L1 & L2 & L3).
  cbn [omap list_omap]. rewrite L1, L2, L3.
  destruct (loop_produced post (S (0 + length pre)) ticks2 [])
    as (ticks3 & H1 & H2 & H3 & H4).
  cbn zeta in *. rewrite app_nil_r in *.
  rewrite H1, H2, H3, H4.
  destruct (loop_stop (S (0 + length pre) + length post) ticks3)
    as (S1 & S2 & S3 & S4).
  rewrite S1, S2, S3, S4. rewrite app_nil_r. repeat split.
Qed.

End SafeIteration.

Lemma safely_generate_skips_failing_record_witness :
  let r := Inference.safely_generate Examples.ticking_clock
             ((Ok <$> [10; 11]) ++ Raise (ValueError "bad frame") :: (Ok <$> [13]))
             true in
  Inference.records r = [10; 11] ++ [13]
  ∧ Inference.logged_errors r = [length [10; 11]]
  ∧ Inference.logged_exceptions r = [ValueError "bad frame"]
  ∧ Inference.raised r = None.
Proof.
  apply (safely_generate_skips_failing_record Examples.ticking_clock true
           [10; 11] [13] (ValueError "bad frame")); reflexivity.
Defined.

(** The design document's case: the record of index 5 out of 10 fails;
    9 records are received and one error is logged. *)
Example safely_generate_record_5_of_10 :
  let r := Inference.safely_generate Examples.ticking_clock
             [Ok 0; Ok 1; Ok 2; Ok 3; Ok 4; Raise (RuntimeError "decode");
              Ok 6; Ok 7; Ok 8; Ok 9] true in
  Inference.records r = [0; 1; 2; 3; 4; 6; 7; 8; 9]
  ∧ Inference.logged_errors r = [5%nat]
  ∧ Inference.raised r = None.
Proof. vm_compute. repeat split. Qed.

(** An exception that is not an instance of [Exception] is not caught: it
    ends the generator. *)
Example safely_generate_interrupt :
  Inference.safely_generate Examples.ticking_clock
    [Ok 0; Raise KeyboardInterrupt; Ok 2] false
  = Inference.mkRun [Inference.Yield 0] (Some KeyboardInterrupt).
Proof. reflexivity. Qed.

(** ** Choice of the predictor *)

Section CommandLine.
Import Inference.
Variable Tracker : Type.
Variable Args : Type.
Variable models : Args → option (list string).
Variable load_head : string → result string.
Variable make_tracker_from_cli : Args → result (option Tracker).

Lemma dict_get_set (d : list (string * string)) (k v k' : string) :
  dict_get (dict_set d k v) k'
  = if decide (k = k') then Some v else dict_get d k'.
Proof.
  induction d as [| [k0 v0] d IH]; simpl.
  - reflexivity.
  - destruct (decide (k0 = k)) as [-> | Hne]; simpl.
    + destruct (decide (k = k')); reflexivity.
    + destruct (decide (k0 = k')) as [-> | Hne'].
      * destruct (decide (k = k')); [congruence | reflexivity].
      * exact IH.
Qed.




End CommandLine.


(** Two models of the top-down pair give a [TopdownPredictor] on their
    directories; a centroid model alone is refused; without any [--model]
    option the loop over [args.models] fails before the heads are
    examined. *)
Example make_predictor_from_cli_topdown :
  Inference.make_predictor_from_cli unit (option (list string)) id
    (λ p, Ok (Examples.head_of_path p)) (λ _, Ok None)
    (Some ["m/centroid/training_config.json"; "m/topdown"])
  = Ok (Inference.mkPredictor unit
          (Inference.TopdownPredictor (Some "m/centroid") (Some "m/topdown")) None).
Proof. vm_compute. reflexivity. Qed.

Example make_predictor_from_cli_centroid_only :
  Inference.make_predictor_from_cli unit (option (list string)) id
    (λ p, Ok (Examples.head_of_path p)) (λ _, Ok None)
    (Some ["m/centroid/training_config.json"])
  = Raise (ValueError "Unable to run inference with ['centroid'] heads.").
Proof. vm_compute. reflexivity. Qed.

Example make_predictor_from_cli_no_model :
  Inference.make_predictor_from_cli unit (option (list string)) id
    (λ p, Ok (Examples.head_of_path p)) (λ _, Ok None) None
  = Raise (TypeError "'NoneType' object is not iterable").
Proof. reflexivity. Qed.

(** ** Safe iteration: any number of failures, early ends, progress *)

Section SafeIterationSummary.
Import Inference Iteration.
Context {A : Type}.
Variable clock : nat → Q.
Variable progress : bool.

Lemma failure_indices_spec (ds : list (result A)) :
  ∀ i j, j ∈ failure_indices i ds
         ↔ (i ≤ j)%nat ∧ ∃ e, ds !! (j - i)%nat = Some (Raise e).
Proof.
  induction ds as [| o ds IH]; intros i j; simpl.
  - split; [intros H; inversion H | intros (_ & e & He); discriminate].
  - destruct o as [x | e0].
    + rewrite IH. split.
      * intros (Hle & e & He). split; [lia |]. exists e.
        replace (j - i)%nat with (S (j - S i)) by lia. exact He.
      * intros (Hle & e & He).
        destruct (j - i)%nat as [| n] eqn:Hn; [discriminate |].
        split; [lia |]. exists e.
        replace (j - S i)%nat with n by lia. exact He.
    + rewrite elem_of_cons, IH. split.
      * intros [-> | (Hle & e & He)].
        -- split; [lia |]. exists e0. rewrite Nat.sub_diag. reflexivity.
        -- split; [lia |]. exists e.
           replace (j - i)%nat with (S (j - S i)) by lia. exact He.
      * intros (Hle & e & He).
        destruct (j - i)%nat as [| n] eqn:Hn.
        -- left. lia.
        -- right. split; [lia |]. exists e.
           replace (j - S i)%nat with n by lia. exact He.
Qed.

(** The loop over a prefix of outcomes that do not end it. *)
Lemma loop_prefix (pre : list (result A)) :
  Forall continues pre →
  ∀ (i ticks : nat) (rest : list (result A)),
  ∃ ticks',
    let r := safely_generate_loop clock progress i ticks (pre ++ rest) in
    let r' := safely_generate_loop clock progress (i + length pre) ticks' rest in
    records r = successes pre ++ records r'
    ∧ logged_errors r = failure_indices i pre ++ logged_errors r'
    ∧ logged_exceptions r = failures pre ++ logged_exceptions r'
    ∧ raised r = raised r'.
Proof.
  induction 1 as [| o pre Ho _ IH]; intros i ticks rest.
  - exists ticks. simpl. rewrite Nat.add_0_r. repeat split.
  - destruct (finally_spec clock progress false i ticks)
      as (ticks1 & logs & E & Hlogs).
    destruct (IH (S i) ticks1 rest) as (ticks' & H1 & H2 & H3 & H4).
    destruct (progress_logs_silent (A := A) logs Hlogs) as (L1 & L2 & L3).
    exists ticks'. cbn zeta in *.
    replace (i + length (o :: pre))%nat with (S i + length pre)%nat
      by (simpl; lia).
    destruct o as [x | e]; simpl in Ho.
    + change ((Ok x :: pre) ++ rest) with (Ok x :: (pre ++ rest)).
      cbn [safely_generate_loop]. rewrite E.
      rewrite records_yield_then, logged_errors_yield_then,
        logged_exceptions_yield_then, raised_yield_then.
      cbn [omap list_omap]. rewrite L1, L2, L3, H1, H2, H3.
      repeat split. exact H4.
    + destruct Ho as [Hstop Hexc].
      change ((Raise e :: pre) ++ rest) with (Raise e :: (pre ++ rest)).
      cbn [safely_generate_loop]. rewrite Hstop, Hexc, E.
      rewrite records_yield_then, logged_errors_yield_then,
        logged_exceptions_yield_then, raised_yield_then.
      cbn [omap list_omap]. rewrite L1, L2, L3, H1, H2, H3.
      repeat split. exact H4.
Qed.

(** X1.  Whatever the number of failing records, as long as each failure
    is an [Exception] other than [StopIteration]: the consumer receives
    the produced records in order, the log has one error per failure with
    the position of the failing record in the sequence, and the generator
    returns. *)
Theorem safely_generate_isolates_failures (ds : list (result A)) :
  Forall continues ds →
  let r := safely_generate clock ds progress in
  records r = successes ds
  ∧ logged_errors r = failure_indices 0 ds
  ∧ logged_exceptions r = failures ds
  ∧ raised r = None
  ∧ ∀ i, i ∈ logged_errors r ↔ ∃ e, ds !! i = Some (Raise e).
Proof.
  intros Hds. cbn zeta. unfold safely_generate.
  destruct (loop_prefix ds Hds 0 1 []) as (ticks' & H1 & H2 & H3 & H4).
  cbn zeta in *. rewrite app_nil_r in *.
  destruct (loop_stop (A := A) clock progress (0 + length ds) ticks')
    as (S1 & S2 & S3 & S4).
  rewrite S1 in H1. rewrite S2 in H2. rewrite S3 in H3. rewrite S4 in H4.
  rewrite app_nil_r in *.
  repeat split; try assumption.
  - rewrite H2, failure_indices_spec. intros (_ & e & He).
    rewrite Nat.sub_0_r in He. eauto.
  - rewrite H2, failure_indices_spec. intros [e He]. split; [lia |].
    rewrite Nat.sub_0_r. eauto.
Qed.

(** X2.  A [StopIteration] raised by the iterator ends the sequence like
    its exhaustion: what the iterator would produce afterwards is never
    read, and the trace is the trace of the outcomes before it. *)
Theorem safely_generate_stops_at_StopIteration (pre rest : list (result A)) :
  safely_generate clock (pre ++ Raise StopIteration :: rest) progress
  = safely_generate clock pre progress.
Proof.
  unfold safely_generate. generalize 0%nat 1%nat.
  induction pre as [| o pre IH]; intros i ticks.
  - reflexivity.
  - change ((o :: pre) ++ Raise StopIteration :: rest)
      with (o :: (pre ++ Raise StopIteration :: rest)).
    destruct o as [x | e]; cbn [safely_generate_loop].
    + destruct (finally clock progress false i ticks) as [[i' ticks'] logs].
      rewrite IH. reflexivity.
    + destruct (is_StopIteration e); [reflexivity |].
      destruct (finally clock progress false i ticks) as [[i' ticks'] logs].
      destruct (is_Exception e); [| reflexivity].
      rewrite IH. reflexivity.
Qed.

(** X3.  An exception that is not an instance of [Exception] is not
    handled: the records produced before it were delivered and the
    failures before it logged, then the exception leaves the generator,
    without an error record for it, and nothing after it is read. *)
Theorem safely_generate_propagates_interrupt (pre rest : list (result A))
  (e : exn) :
  Forall continues pre → is_Exception e = false →
  let r := safely_generate clock (pre ++ Raise e :: rest) progress in
  records r = successes pre
  ∧ logged_errors r = failure_indices 0 pre
  ∧ logged_exceptions r = failures pre
  ∧ raised r = Some e.
Proof.
  intros Hpre Hexc. cbn zeta. unfold safely_generate.
  assert (Hstop : is_StopIteration e = false) by (destruct e; done).
  destruct (loop_prefix pre Hpre 0 1 (Raise e :: rest))
    as (ticks' & H1 & H2 & H3 & H4).
  cbn zeta in *. rewrite H1, H2, H3, H4.
  cbn [safely_generate_loop]. rewrite Hstop, Hexc.
  destruct (finally_spec clock progress false (0 + length pre) ticks')
    as (ticks2 & logs & E & Hlogs).
  rewrite E.
  destruct (progress_logs_silent (A := A) logs Hlogs) as (L1 & L2 & L3).
  unfold records, logged_errors, logged_exceptions. cbn [yielded raised].
  rewrite L1, L2, L3, !app_nil_r. repeat split.
Qed.

End SafeIterationSummary.

Lemma safely_generate_isolates_failures_witness :
  let r := Inference.safely_generate Examples.ticking_clock
             Examples.outcomes_two_failures true in
  Inference.records r = Iteration.successes Examples.outcomes_two_failures
  ∧ Inference.logged_errors r
    = Iteration.failure_indices 0 Examples.outcomes_two_failures
  ∧ Inference.logged_exceptions r
    = Iteration.failures Examples.outcomes_two_failures
  ∧ Inference.raised r = None
  ∧ ∀ i, i ∈ Inference.logged_errors r
         ↔ ∃ e, Examples.outcomes_two_failures !! i = Some (Raise e).
Proof.
  apply (safely_generate_isolates_failures Examples.ticking_clock true
           Examples.outcomes_two_failures).
  repeat constructor.
Defined.

Lemma safely_generate_propagates_interrupt_witness :
  let r := Inference.safely_generate Examples.ticking_clock
             (Examples.outcomes_two_failures
              ++ Raise KeyboardInterrupt :: [Ok 16]) false in
  Inference.records r = Iteration.successes Examples.outcomes_two_failures
  ∧ Inference.logged_errors r
    = Iteration.failure_indices 0 Examples.outcomes_two_failures
  ∧ Inference.logged_exceptions r
    = Iteration.failures Examples.outcomes_two_failures
  ∧ Inference.raised r = Some KeyboardInterrupt.
Proof.
  apply (safely_generate_propagates_interrupt Examples.ticking_clock false
           Examples.outcomes_two_failures [Ok 16] KeyboardInterrupt).
  - repeat constructor.
  - reflexivity.
Defined.

Section ProgressReports.
Import Inference Iteration.
Context {A : Type}.
Variable clock : nat → Q.

Lemma finished_counts_yield_then (evs : list (event A)) (r : run (event A)) :
  finished_counts (yield_then evs r)
  = omap (λ ev : event A, match ev with
                          | Log (Finished i _) => Some i
                          | _ => None
                          end) evs
    ++ finished_counts r.
Proof. unfold finished_counts, yield_then. simpl. apply omap_app. Qed.

(** The progress records of one pass through the [finally] clause. *)
Lemma finally_finished (done : bool) (i ticks : nat) :
  ∃ ticks' logs,
    finally clock true done i ticks = (if done then i else S i, ticks', logs)
    ∧ omap (λ ev : event A, match ev with
                            | Log (Finished i _) => Some i
                            | _ => None
                            end) (Log <$> logs)
      = if done then [i]
        else if (S i mod 1000 =? 0)%nat then [S i] else [].
Proof.
  unfold finally. destruct done; cbn [andb orb negb].
  - rewrite orb_true_r. eexists _, _. split; [reflexivity |].
    destruct (Qeq_bool _ 0); reflexivity.
  - rewrite orb_false_r. change (S i =? 0)%nat with false. cbn [negb andb].
    destruct (S i mod 1000 =? 0)%nat.
    + eexists _, _. split; [reflexivity |].
      destruct (Qeq_bool _ 0); reflexivity.
    + eexists _, _. split; reflexivity.
Qed.

Lemma loop_finished (ds : list (result A)) :
  Forall continues ds →
  ∀ (i ticks j : nat),
    j ∈ finished_counts (safely_generate_loop clock true i ticks ds)
    ↔ j = (i + length ds)%nat
      ∨ ((i < j ≤ i + length ds)%nat ∧ (j mod 1000 = 0)%nat).
Proof.
  induction 1 as [| o ds Ho _ IH]; intros i ticks j.
  - cbn [safely_generate_loop].
    destruct (finally_finished true i ticks) as (ticks' & logs & E & Hlogs).
    rewrite E. unfold finished_counts. cbn [yielded]. rewrite Hlogs.
    rewrite list_elem_of_singleton. simpl. split; [intros ->; left; lia |].
    intros [-> | [Hle _]]; lia.
  - destruct (finally_finished false i ticks) as (ticks' & logs & E & Hlogs).
    assert (Hstep :
      j ∈ (if (S i mod 1000 =? 0)%nat then [S i] else [])
          ++ finished_counts (safely_generate_loop clock true (S i) ticks' ds)
      ↔ j = (i + length (o :: ds))%nat
        ∨ ((i < j ≤ i + length (o :: ds))%nat ∧ (j mod 1000 = 0)%nat)).
    { rewrite elem_of_app, IH. simpl length.
      destruct (Nat.eqb_spec (S i mod 1000) 0) as [Hm | Hm].
      - rewrite list_elem_of_singleton. split.
        + intros [-> | [-> | [Hle Hmod]]]; [right | left | right]; lia.
        + intros [-> | [Hle Hmod]]; [right; left; lia |].
          destruct (decide (j = S i)) as [-> | Hne]; [left; reflexivity |].
          right. right. lia.
      - split.
        + intros [Hin | [-> | [Hle Hmod]]]; [inversion Hin | left | right]; lia.
        + intros [-> | [Hle Hmod]]; right; [left; lia |].
          right. split; [| exact Hmod].
          destruct (decide (j = S i)) as [-> | Hne]; [contradiction | lia]. }
    destruct o as [x | e]; simpl in Ho.
    + cbn [safely_generate_loop]. rewrite E, finished_counts_yield_then.
      cbn [omap list_omap]. rewrite Hlogs. exact Hstep.
    + destruct Ho as [Hstop Hexc].
      cbn [safely_generate_loop]. rewrite Hstop, Hexc, E.
      rewrite finished_counts_yield_then.
      cbn [omap list_omap]. rewrite Hlogs. exact Hstep.
Qed.

(** X4.  With the progress report on, and no outcome that ends the loop
    early, a record "Finished j frames" is logged exactly for the total
    number of samples, failed ones included, and for every multiple of
    1000 up to it. *)
Theorem safely_generate_progress_reports (ds : list (result A)) (j : nat) :
  Forall continues ds →
  j ∈ finished_counts (safely_generate clock ds true)
  ↔ j = length ds ∨ ((0 < j ≤ length ds)%nat ∧ (j mod 1000 = 0)%nat).
Proof.
  intros Hds. unfold safely_generate. cbn zeta.
  rewrite (loop_finished ds Hds 0 1 j). simpl. reflexivity.
Qed.

(** X5.  With the progress report off, the log holds nothing but the
    error records: no "Finished" and no "FPS" record, whatever the
    outcomes are. *)
Theorem safely_generate_silent_without_progress (ds : list (result A)) :
  Forall (λ ev, match ev with
                | Log (Finished _ _) | Log (FPS _ _) => False
                | _ => True
                end)
    (yielded (safely_generate clock ds false)).
Proof.
  unfold safely_generate. cbn zeta. generalize 0%nat 1%nat.
  induction ds as [| o ds IH]; intros i ticks.
  - cbn. constructor.
  - destruct o as [x | e]; cbn [safely_generate_loop finally andb].
    + unfold yield_then. cbn [yielded fmap list_fmap app].
      constructor; [exact I | apply IH].
    + destruct (is_StopIteration e); [cbn; constructor |].
      destruct (is_Exception e); [| cbn; constructor].
      unfold yield_then. cbn [yielded fmap list_fmap app].
      repeat (constructor; [exact I |]). apply IH.
Qed.

End ProgressReports.

Lemma safely_generate_progress_reports_witness :
  5%nat ∈ Iteration.finished_counts
            (Inference.safely_generate Examples.ticking_clock
               Examples.outcomes_two_failures true)
  ↔ 5%nat = length Examples.outcomes_two_failures
    ∨ ((0 < 5 ≤ length Examples.outcomes_two_failures)%nat
       ∧ (5 mod 1000 = 0)%nat).
Proof.
  apply (safely_generate_progress_reports Examples.ticking_clock
           Examples.outcomes_two_failures 5).
  repeat constructor.
Defined.

(** ** Grouping: the run decomposition is unique; failures; the dictionary *)

Section GroupingMore.
Import InstanceCropping Inference Grouping.





(** The loop up to an example whose key cannot be read. *)
Lemma group_loop_failure (good : list example) :
  Forall (λ ex, ∃ k, frame_key ex = Ok k) good →
  ∀ (bad : example) (rest : list example) (e : exn)
    (last_key key : option (Z * Z)) (batch : list example),
    frame_key bad = Raise e →
    (batch = [] ∨ is_Some key) →
    let r := group_loop last_key key batch (good ++ bad :: rest) in
    raised r = Some e
    ∧ ∃ unfinished,
        yielded (group_loop last_key key batch good) = yielded r ++ unfinished
        ∧ (batch ≠ [] ∨ good ≠ [] → length unfinished = 1%nat)
        ∧ (batch = [] → good = [] → unfinished = []).
Proof.
  induction 1 as [| ex good [k Hk] _ IH];
    intros bad rest e last_key key batch Hbad Hstate; cbn zeta.
  - simpl. rewrite Hbad. simpl. split; [reflexivity |].
    destruct batch as [| b batch].
    + exists []. split; [reflexivity |]. split.
      * intros [? | ?]; congruence.
      * reflexivity.
    + destruct Hstate as [? | [k Hkey]]; [discriminate |]. subst key.
      eexists. split; [reflexivity |]. split; [reflexivity |]. discriminate.
  - simpl. rewrite Hk.
    destruct (decide (last_key ≠ Some k)).
    + destruct (IH bad rest e (Some k) (Some k) [ex] Hbad (or_intror (mk_is_Some _ _ eq_refl)))
        as (Hr & unfinished & Hy & Hlen & _).
      cbn zeta in *. split; [exact Hr |].
      exists unfinished. split; [| split].
      * simpl. rewrite Hy. apply app_assoc.
      * intros _. apply Hlen. left. discriminate.
      * intros _ ?. discriminate.
    + destruct (IH bad rest e last_key (Some k) (batch ++ [ex]) Hbad
                  (or_intror (mk_is_Some _ _ eq_refl)))
        as (Hr & unfinished & Hy & Hlen & _).
      cbn zeta in *. split; [exact Hr |].
      exists unfinished. split; [exact Hy | split].
      * intros _. apply Hlen. left. destruct batch; discriminate.
      * intros _ ?. discriminate.
Qed.

(** X7.  When the key of an example cannot be read (a missing
    [video_ind] or [frame_ind] raises [KeyError]), the generator has
    yielded the groups that were complete before it and ends with the
    exception; the group under construction, the last group of the
    examples before the failing one, is never yielded. *)
Theorem group_examples_iter_missing_key (good : list example) (bad : example)
  (rest : list example) (e : exn) :
  Forall (λ ex, ∃ k, frame_key ex = Ok k) good →
  frame_key bad = Raise e →
  group_examples_iter (good ++ bad :: rest)
  = mkRun (removelast (yielded (group_examples_iter good))) (Some e).
Proof.
  intros Hgood Hbad. unfold group_examples_iter.
  destruct (group_loop_failure good Hgood bad rest e None None [] Hbad
              (or_introl eq_refl)) as (Hr & unfinished & Hy & Hlen & Hnone).
  cbn zeta in *. rewrite Hy.
  destruct (group_loop None None [] (good ++ bad :: rest)) as [ys rs].
  simpl in *. subst rs. f_equal.
  destruct good as [| ex good].
  - rewrite (Hnone eq_refl eq_refl), app_nil_r.
    simpl in Hy. rewrite (Hnone eq_refl eq_refl), app_nil_r in Hy.
    subst ys. reflexivity.
  - assert (Hone : length unfinished = 1%nat).
    { apply Hlen. right. discriminate. }
    destruct unfinished as [| g [| g' u]]; [discriminate Hone | | discriminate Hone].
    symmetry. apply removelast_last.
Qed.

End GroupingMore.

Lemma group_examples_iter_missing_key_witness :
  Inference.group_examples_iter
    (Examples.frames_1_1_2 ++ Examples.example_without_frame_ind :: [])
  = Inference.mkRun
      (removelast (Inference.yielded
                     (Inference.group_examples_iter Examples.frames_1_1_2)))
      (Some (KeyError "frame_ind")).
Proof.
  apply (group_examples_iter_missing_key Examples.frames_1_1_2
           Examples.example_without_frame_ind [] (KeyError "frame_ind")).
  - repeat constructor; eexists; vm_compute; reflexivity.
  - vm_compute. reflexivity.
Defined.

(** The two examples of frame 1 are yielded; the example of frame 2, which
    was waiting for the end of its run, is lost. *)
Example group_examples_iter_loses_unfinished_group :
  Inference.group_examples_iter
    (Examples.frames_1_1_2 ++ [Examples.example_without_frame_ind])
  = Inference.mkRun
      [(Some (0, 1), [Examples.keyed_example 0 1 1; Examples.keyed_example 0 1 2])]
      (Some (KeyError "frame_ind")).
Proof. vm_compute. reflexivity. Qed.

Section GroupingDictionary.
Import InstanceCropping Inference Grouping.

Lemma for_fold_app {X S : Type} (body : S → X → result S) (s : S)
  (l1 l2 : list X) :
  for_fold body s (l1 ++ l2)
  = Py.bind (for_fold body s l1) (λ s', for_fold body s' l2).
Proof.
  revert s. induction l1 as [| x l1 IH]; intros s; simpl.
  - reflexivity.
  - destruct (body s x) as [s' | e]; simpl; [apply IH | reflexivity].
Qed.

Lemma group_examples_step (d : list ((Z * Z) * list example)) (ex : example)
  (examples : list example) (k : Z * Z) :
  frame_key ex = Ok k →
  group_examples_from d (ex :: examples)
  = group_examples_from (append_to d k ex) examples.
Proof.
  unfold frame_key, group_examples_from. intros Hk. simpl.
  destruct (numpy_scalar ex "video_ind") as [v | e]; [| discriminate].
  destruct (numpy_scalar ex "frame_ind") as [f | e]; [| discriminate].
  simpl in *. injection Hk as <-. reflexivity.
Qed.

Lemma append_to_new {V : Type} (d : list ((Z * Z) * list V)) (k : Z * Z) (v : V) :
  k ∉ d.*1 → append_to d k v = d ++ [(k, [v])].
Proof.
  induction d as [| [k' l] d IH]; simpl; intros Hk; [reflexivity |].
  apply not_elem_of_cons in Hk as [Hne Hk].
  destruct (decide (k' = k)); [congruence |]. rewrite IH by exact Hk.
  reflexivity.
Qed.

Lemma append_to_last {V : Type} (d : list ((Z * Z) * list V)) (k : Z * Z)
  (l : list V) (v : V) :
  k ∉ d.*1 → append_to (d ++ [(k, l)]) k v = d ++ [(k, l ++ [v])].
Proof.
  induction d as [| [k' l'] d IH]; simpl; intros Hk.
  - destruct (decide (k = k)); [reflexivity | congruence].
  - apply not_elem_of_cons in Hk as [Hne Hk].
    destruct (decide (k' = k)); [congruence |]. rewrite IH by exact Hk.
    reflexivity.
Qed.

(** A run of examples of one key that is new to the dictionary enters it
    as one entry at the end. *)
Lemma group_examples_run (b : list example) (k : Z * Z) :
  Forall (λ ex, frame_key ex = Ok k) b → b ≠ [] →
  ∀ d rest, k ∉ d.*1 →
    group_examples_from d (b ++ rest)
    = group_examples_from (d ++ [(k, b)]) rest.
Proof.
  intros Hb Hne d rest Hk.
  destruct Hb as [| x b Hx Hb]; [congruence |]. clear Hne.
  change ((x :: b) ++ rest) with (x :: (b ++ rest)).
  rewrite (group_examples_step d x _ k Hx), (append_to_new d k x Hk).
  change (x :: b) with ([x] ++ b). generalize [x] as l.
  induction Hb as [| y b Hy _ IH]; intros l.
  - rewrite app_nil_r. reflexivity.
  - change ((y :: b) ++ rest) with (y :: (b ++ rest)).
    rewrite (group_examples_step _ y _ k Hy), (append_to_last d k l y Hk).
    rewrite IH. rewrite <- app_assoc. reflexivity.
Qed.

Lemma group_examples_runs (groups : list (option (Z * Z) * list example)) :
  Forall (λ g, g.2 ≠ []
               ∧ ∃ k, g.1 = Some k ∧ Forall (λ ex, frame_key ex = Ok k) g.2)
    groups →
  NoDup (groups.*1) →
  ∀ d, (∀ k, Some k ∈ groups.*1 → k ∉ d.*1) →
    ∃ d', group_examples_from d (concat (groups.*2)) = Ok (d ++ d')
          ∧ (λ g, (Some g.1, g.2)) <$> d' = groups.
Proof.
  induction 1 as [| [ko b] groups (Hne & k & Hk & Hb) _ IH];
    intros Hnd d Hd.
  - exists []. rewrite app_nil_r. split; reflexivity.
  - cbn [fst snd] in Hne, Hk, Hb. subst ko.
    rewrite fmap_cons in Hnd. cbn [fst] in Hnd.
    apply NoDup_cons in Hnd as [Hnotin Hnd].
    rewrite fmap_cons, concat_cons. cbn [snd].
    rewrite (group_examples_run b k Hb Hne d _
               (Hd k (list_elem_of_here _ _))).
    destruct (IH Hnd (d ++ [(k, b)])) as (d' & E & Hd').
    { intros k' Hk'. rewrite fmap_app, not_elem_of_app. split.
      - apply Hd. rewrite fmap_cons. apply list_elem_of_further. exact Hk'.
      - cbn. intros Hin. apply list_elem_of_singleton in Hin as ->.
        contradiction. }
    exists ((k, b) :: d'). split.
    + rewrite E. rewrite <- app_assoc. reflexivity.
    + rewrite fmap_cons, Hd'. reflexivity.
Qed.

(** X8.  On a sequence ordered by frame, in which no key comes back
    after another one, the dictionary built by [group_examples] holds, in
    order, the groups that [group_examples_iter] yields. *)
Theorem group_examples_agrees_with_iter (examples : list example) :
  Forall (λ ex, ∃ k, frame_key ex = Ok k) examples →
  NoDup ((yielded (group_examples_iter examples)).*1) →
  ∃ d, group_examples examples = Ok d
       ∧ (λ g, (Some g.1, g.2)) <$> d = yielded (group_examples_iter examples).
Proof.
  intros Hkeys Hnd.
  destruct (group_examples_iter_runs examples Hkeys)
    as (groups & E & Hcat & Hall & _).
  rewrite E in *. cbn [yielded] in *.
  destruct (group_examples_runs groups Hall Hnd []) as (d' & Ed & Hd').
  { intros k _ Hin. inversion Hin. }
  exists d'. split; [| exact Hd'].
  unfold group_examples. rewrite <- Hcat. exact Ed.
Qed.

End GroupingDictionary.

Section GroupingClosedForm.
Import InstanceCropping Inference Grouping.

Lemma first_occurrences_elem (keys : list (Z * Z)) (k : Z * Z) :
  k ∈ first_occurrences keys ↔ k ∈ keys.
Proof.
  induction keys as [| k0 keys IH]; simpl; [reflexivity |].
  rewrite !elem_of_cons, list_elem_of_filter, IH.
  destruct (decide (k = k0)); [subst; tauto | tauto].
Qed.

Lemma first_occurrences_NoDup (keys : list (Z * Z)) :
  NoDup (first_occurrences keys).
Proof.
  induction keys as [| k0 keys IH]; simpl; [constructor |].
  apply NoDup_cons. split.
  - rewrite list_elem_of_filter. tauto.
  - apply NoDup_filter. exact IH.
Qed.

Lemma first_occurrences_snoc (keys : list (Z * Z)) (k : Z * Z) :
  first_occurrences (keys ++ [k])
  = first_occurrences keys ++ (if decide (k ∈ keys) then [] else [k]).
Proof.
  induction keys as [| k0 keys IH]; simpl.
  - destruct (decide (k ∈ [])) as [Hin | _]; [inversion Hin | reflexivity].
  - rewrite IH, filter_app. f_equal. f_equal.
    destruct (decide (k ∈ keys)) as [Hin | Hnin].
    + rewrite decide_True by (apply list_elem_of_further; exact Hin).
      reflexivity.
    + destruct (decide (k = k0)) as [-> | Hne].
      * rewrite decide_True by apply list_elem_of_here.
        rewrite filter_cons_False by tauto. reflexivity.
      * rewrite decide_False
          by (rewrite elem_of_cons; tauto).
        rewrite filter_cons_True by exact Hne. reflexivity.
Qed.

Lemma filter_none {X : Type} (P : X → Prop) `{∀ x, Decision (P x)}
  (l : list X) :
  Forall (λ x, ¬ P x) l → filter P l = [].
Proof.
  induction 1 as [| x l Hx _ IH]; [reflexivity |].
  rewrite filter_cons_False by exact Hx. exact IH.
Qed.

(** Appending under a key that the dictionary has. *)
Lemma append_to_present {V : Type} (f : Z * Z → list V) (ks : list (Z * Z))
  (k : Z * Z) (v : V) :
  k ∈ ks → NoDup ks →
  append_to ((λ k', (k', f k')) <$> ks) k v
  = (λ k', (k', f k' ++ (if decide (k' = k) then [v] else []))) <$> ks.
Proof.
  induction ks as [| k0 ks IH]; intros Hin Hnd; [inversion Hin |].
  apply NoDup_cons in Hnd as [Hk0 Hnd].
  rewrite !fmap_cons. cbn [append_to].
  destruct (decide (k0 = k)) as [-> | Hne].
  - f_equal. apply list_fmap_ext. intros i k' Hk'.
    destruct (decide (k' = k)) as [-> | _].
    + exfalso. apply Hk0. eapply list_elem_of_lookup_2. exact Hk'.
    + rewrite app_nil_r. reflexivity.
  - rewrite app_nil_r. f_equal. apply IH; [| exact Hnd].
    apply elem_of_cons in Hin as [-> | Hin]; [congruence | exact Hin].
Qed.

(** X9.  [group_examples] groups globally: its dictionary has one entry
    per key, in the order in which the keys first occur, and the entry of
    a key lists all the examples of that key in their order, wherever
    they are in the sequence. *)
Theorem group_examples_by_key (examples : list example) :
  Forall (λ ex, ∃ k, frame_key ex = Ok k) examples →
  group_examples examples
  = Ok ((λ k, (k, filter (λ ex, key_or_default ex = k) examples))
        <$> first_occurrences (key_or_default <$> examples)).
Proof.
  unfold group_examples, group_examples_from.
  induction examples as [| x examples IH] using rev_ind; intros Hkeys.
  - reflexivity.
  - apply Forall_app in Hkeys as [Hkeys Hx].
    inversion Hx as [| ? ? [kx Hkx] _]; subst.
    rewrite for_fold_app, (IH Hkeys). cbn [bind].
    change (for_fold _ ?d [x]) with (group_examples_from d [x]).
    rewrite (group_examples_step _ x [] kx Hkx).
    unfold group_examples_from. cbn [for_fold]. f_equal.
    assert (Hkd : key_or_default x = kx) by (unfold key_or_default; rewrite Hkx; reflexivity).
    rewrite !(fmap_app key_or_default).
    change (key_or_default <$> [x]) with [key_or_default x].
    rewrite first_occurrences_snoc, Hkd.
    destruct (decide (kx ∈ key_or_default <$> examples)) as [Hin | Hnin].
    + rewrite app_nil_r.
      rewrite (append_to_present
                 (λ k, filter (λ ex, key_or_default ex = k) examples)
                 _ kx x).
      * apply list_fmap_ext. intros i k _.
        rewrite filter_app. f_equal. f_equal.
        destruct (decide (k = kx)) as [-> | Hne].
        -- rewrite filter_cons_True by exact Hkd. reflexivity.
        -- rewrite filter_cons_False by congruence. reflexivity.
      * apply first_occurrences_elem. exact Hin.
      * apply first_occurrences_NoDup.
    + rewrite append_to_new.
      * rewrite fmap_app. f_equal.
        -- apply list_fmap_ext. intros i k Hk.
           rewrite filter_app. rewrite filter_cons_False, filter_nil, app_nil_r;
             [reflexivity |].
           intros Heq. apply Hnin. rewrite Hkd in Heq. subst k.
           apply first_occurrences_elem. eapply list_elem_of_lookup_2. exact Hk.
        -- cbn [fmap list_fmap]. f_equal. f_equal.
           rewrite filter_app, filter_cons_True by exact Hkd.
           rewrite filter_none; [reflexivity |].
           apply Forall_forall. intros ex Hex Heq. apply Hnin.
           rewrite <- Heq.
           apply list_elem_of_fmap. eauto.
      * rewrite <- list_fmap_compose. cbn. rewrite list_fmap_id.
        rewrite first_occurrences_elem. exact Hnin.
Qed.

End GroupingClosedForm.

Lemma group_examples_by_key_witness :
  Grouping.group_examples Examples.frames_1_1_2_1
  = Ok ((λ k, (k, filter (λ ex, Grouping.key_or_default ex = k)
                    Examples.frames_1_1_2_1))
        <$> Grouping.first_occurrences
              (Grouping.key_or_default <$> Examples.frames_1_1_2_1)).
Proof.
  apply (group_examples_by_key Examples.frames_1_1_2_1).
  repeat constructor; eexists; vm_compute; reflexivity.
Defined.

(** The example of frame 1 that comes after frame 2 joins the two earlier
    examples of frame 1. *)
Example group_examples_out_of_order :
  Grouping.group_examples Examples.frames_1_1_2_1
  = Ok [ ((0, 1), [Examples.keyed_example 0 1 1; Examples.keyed_example 0 1 2;
                   Examples.keyed_example 0 1 4]);
         ((0, 2), [Examples.keyed_example 0 2 3]) ].
Proof. vm_compute. reflexivity. Qed.

Lemma group_examples_agrees_with_iter_witness :
  ∃ d, Grouping.group_examples Examples.frames_1_1_2 = Ok d
       ∧ (λ g, (Some g.1, g.2)) <$> d
         = Inference.yielded (Inference.group_examples_iter Examples.frames_1_1_2).
Proof.
  apply (group_examples_agrees_with_iter Examples.frames_1_1_2).
  - repeat constructor; eexists; vm_compute; reflexivity.
  - vm_compute. repeat constructor; intros H; inversion H; subst;
      try match goal with H' : _ ∈ _ |- _ => inversion H'; subst end;
      try match goal with H' : _ ∈ [] |- _ => inversion H' end.
Defined.

Section ModelChoiceProperties.
Import Inference ModelChoice.
Variable Tracker : Type.
Variable Args : Type.
Variable models : Args → option (list string).
Variable load_head : string → result string.
Variable make_tracker_from_cli : Args → result (option Tracker).

Lemma last_cons_eq {X : Type} (x : X) (l : list X) :
  last (x :: l) = match last l with Some y => Some y | None => Some x end.
Proof. destruct l as [| y l]; [reflexivity |]. simpl. destruct (last (y :: l)) eqn:E; [reflexivity |]. apply last_None in E. discriminate. Qed.

(** A later path of a head replaces the directory stored for the head. *)
Lemma load_loop_last (head_of : string → string) (paths : list string) :
  (∀ p, p ∈ paths → load_head p = Ok (head_of p)) →
  ∀ d0, ∃ d,
    for_fold
      (λ trained_model_paths model_path,
         let* key := load_head model_path in
         let model_path := model_dir model_path in
         Ok (dict_set trained_model_paths key model_path))
      d0 paths = Ok d
    ∧ ∀ h, dict_get d h
           = match last_with_head head_of h paths with
             | Some p => Some (model_dir p)
             | None => dict_get d0 h
             end.
Proof.
  induction paths as [| path paths IH]; intros Hload d0.
  - exists d0. split; reflexivity.
  - simpl. rewrite (Hload path (list_elem_of_here _ _)). simpl.
    destruct (IH (λ p Hp, Hload p (list_elem_of_further _ _ _ Hp))
                (dict_set d0 (head_of path) (model_dir path)))
      as (d & E & Hd).
    exists d. split; [exact E |]. intros h. rewrite Hd.
    unfold last_with_head. rewrite dict_get_set.
    destruct (decide (head_of path = h)) as [Hh | Hh].
    + rewrite filter_cons_True by exact Hh. rewrite last_cons_eq.
      destruct (last (filter (λ p, head_of p = h) paths)); reflexivity.
    + rewrite filter_cons_False by exact Hh. reflexivity.
Qed.

(** X10.  When several [--model] paths have the same head, the last one
    is used: the predictor is built from the directory of the last path
    of [multi_instance]; without such a path, from the last path of
    [single_instance]; without either, from the last [centroid] path and
    the last [centered_instance] path. *)
Theorem make_predictor_from_cli_last_model (args : Args) (paths : list string)
  (head_of : string → string) (tracker : option Tracker) :
  models args = Some paths →
  (∀ p, p ∈ paths → load_head p = Ok (head_of p)) →
  make_tracker_from_cli args = Ok tracker →
  let r := make_predictor_from_cli Tracker Args models load_head
             make_tracker_from_cli args in
  (∀ p, last_with_head head_of "multi_instance" paths = Some p →
        r = Ok (mkPredictor Tracker (BottomupPredictor (model_dir p)) tracker))
  ∧ (∀ p, last_with_head head_of "multi_instance" paths = None →
          last_with_head head_of "single_instance" paths = Some p →
          r = Ok (mkPredictor Tracker (SingleInstancePredictor (model_dir p))
                    tracker))
  ∧ (∀ c ci, last_with_head head_of "multi_instance" paths = None →
             last_with_head head_of "single_instance" paths = None →
             last_with_head head_of "centroid" paths = Some c →
             last_with_head head_of "centered_instance" paths = Some ci →
             r = Ok (mkPredictor Tracker
                       (TopdownPredictor (Some (model_dir c))
                          (Some (model_dir ci))) tracker)).
Proof.
  intros Hmodels Hload Htracker r. subst r.
  unfold make_predictor_from_cli, load_model_paths. rewrite Hmodels. cbn [bind].
  destruct (load_loop_last head_of paths Hload []) as (d & E & Hd).
  cbv zeta in E. rewrite E. cbn [bind].
  rewrite (Hd "multi_instance"), (Hd "single_instance"), (Hd "centroid"),
    (Hd "centered_instance").
  cbn [dict_get].
  split; [| split].
  - intros p ->. cbn [bind]. rewrite Htracker. reflexivity.
  - intros p -> ->. cbn [bind]. rewrite Htracker. reflexivity.
  - intros c ci -> -> -> ->. cbn [bind Topdown_from_trained_models].
    rewrite Htracker. reflexivity.
Qed.

Lemma load_loop_failure (head_of : string → string) (pre post : list string)
  (path : string) (e : exn) :
  (∀ p, p ∈ pre → load_head p = Ok (head_of p)) →
  load_head path = Raise e →
  ∀ d0,
    for_fold
      (λ trained_model_paths model_path,
         let* key := load_head model_path in
         let model_path := model_dir model_path in
         Ok (dict_set trained_model_paths key model_path))
      d0 (pre ++ path :: post) = Raise e.
Proof.
  intros Hpre Hpath. induction pre as [| q pre IH]; intros d0.
  - simpl. rewrite Hpath. reflexivity.
  - simpl. rewrite (Hpre q (list_elem_of_here _ _)). simpl.
    apply IH. intros p Hp. apply Hpre. apply list_elem_of_further. exact Hp.
Qed.

(** X11.  A configuration that cannot be loaded aborts the call: the
    exception of the first failing path is raised, whatever the heads of
    the other paths are, and no predictor is built. *)
Theorem make_predictor_from_cli_load_failure (args : Args)
  (pre post : list string) (path : string) (head_of : string → string)
  (e : exn) :
  models args = Some (pre ++ path :: post) →
  (∀ p, p ∈ pre → load_head p = Ok (head_of p)) →
  load_head path = Raise e →
  make_predictor_from_cli Tracker Args models load_head make_tracker_from_cli
    args = Raise e.
Proof.
  intros Hmodels Hpre Hpath.
  unfold make_predictor_from_cli, load_model_paths. rewrite Hmodels. cbn [bind].
  pose proof (load_loop_failure head_of pre post path e Hpre Hpath []) as E.
  cbv zeta in E. rewrite E. reflexivity.
Qed.

End ModelChoiceProperties.

(** Of two centroid models the second one is used. *)
Lemma make_predictor_from_cli_last_model_witness :
  Inference.make_predictor_from_cli unit (option (list string)) id
    (λ p, Ok (Examples.head_of_path p)) (λ _, Ok None)
    (Some ["a/centroid/training_config.json"; "m/topdown";
           "b/centroid/training_config.json"])
  = Ok (Inference.mkPredictor unit
          (Inference.TopdownPredictor
             (Some (Inference.model_dir "b/centroid/training_config.json"))
             (Some (Inference.model_dir "m/topdown")))
          None).
Proof.
  refine (proj2 (proj2
    (make_predictor_from_cli_last_model unit (option (list string)) id
       (λ p, Ok (Examples.head_of_path p)) (λ _, Ok None)
       (Some ["a/centroid/training_config.json"; "m/topdown";
              "b/centroid/training_config.json"])
       ["a/centroid/training_config.json"; "m/topdown";
        "b/centroid/training_config.json"]
       Examples.head_of_path None eq_refl (λ p _, eq_refl) eq_refl))
    "b/centroid/training_config.json" "m/topdown" _ _ _ _);
    reflexivity.
Defined.

Lemma make_predictor_from_cli_load_failure_witness :
  Inference.make_predictor_from_cli unit (option (list string)) id
    (λ p, if Inference.endswith p "missing"
          then Raise (RuntimeError "no such file")
          else Ok (Examples.head_of_path p))
    (λ _, Ok None)
    (Some (["m/topdown"] ++ "m/missing" :: ["a/centroid/training_config.json"]))
  = Raise (RuntimeError "no such file").
Proof.
  apply (make_predictor_from_cli_load_failure unit (option (list string)) id
           (λ p, if Inference.endswith p "missing"
                 then Raise (RuntimeError "no such file")
                 else Ok (Examples.head_of_path p))
           (λ _, Ok None)
           (Some (["m/topdown"] ++ "m/missing" :: ["a/centroid/training_config.json"]))
           ["m/topdown"] ["a/centroid/training_config.json"] "m/missing"
           Examples.head_of_path (RuntimeError "no such file")).
  - reflexivity.
  - intros p Hp. apply list_elem_of_singleton in Hp as ->. reflexivity.
  - reflexivity.
Defined.

(** ** Paths *)

Section PathProperties.
Import Inference Paths.

Lemma chars_app (s1 s2 : string) :
  list_ascii_of_string (s1 +:+ s2)
  = list_ascii_of_string s1 ++ list_ascii_of_string s2.
Proof. induction s1 as [| c s1 IH]; simpl; [reflexivity | rewrite IH; reflexivity]. Qed.

Lemma string_of_chars_app (l1 l2 : list ascii) :
  string_of_list_ascii (l1 ++ l2)
  = string_of_list_ascii l1 +:+ string_of_list_ascii l2.
Proof. induction l1 as [| c l1 IH]; simpl; [reflexivity | rewrite IH; reflexivity]. Qed.

Lemma drop_while_all {X : Type} (p : X → bool) (l1 l2 : list X) :
  Forall (λ x, p x = true) l1 → drop_while p (l1 ++ l2) = drop_while p l2.
Proof. induction 1 as [| x l1 Hx _ IH]; simpl; [reflexivity | rewrite Hx; exact IH]. Qed.

Lemma take_while_all {X : Type} (p : X → bool) (l1 : list X) (y : X)
  (l2 : list X) :
  Forall (λ x, p x = true) l1 → p y = false →
  take_while p (l1 ++ y :: l2) = l1.
Proof.
  intros H Hy. induction H as [| x l1 Hx _ IH]; simpl.
  - rewrite Hy. reflexivity.
  - rewrite Hx, IH. reflexivity.
Qed.

Lemma take_while_whole {X : Type} (p : X → bool) (l : list X) :
  Forall (λ x, p x = true) l → take_while p l = l.
Proof. induction 1 as [| x l Hx _ IH]; simpl; [reflexivity | rewrite Hx, IH; reflexivity]. Qed.

Lemma no_sep_chars (name : list ascii) :
  "/"%char ∉ name → Forall (λ c, negb (is_sep c) = true) (rev name).
Proof.
  intros Hno. apply Forall_forall. intros c Hc.
  apply list_elem_of_In, in_rev, list_elem_of_In in Hc.
  unfold is_sep. rewrite bool_decide_eq_false_2; [reflexivity |].
  intros ->. contradiction.
Qed.

(** A directory name: not empty, not ending in a slash. *)
Lemma directory_chars (dir : string) :
  dir ≠ "" → endswith dir "/" = false →
  ∃ d c, list_ascii_of_string dir = d ++ [c] ∧ is_sep c = false.
Proof.
  intros Hne Hend.
  assert (Hcs : list_ascii_of_string dir ≠ []).
  { intros Hnil. apply Hne.
    rewrite <- (string_of_list_ascii_of_string dir), Hnil. reflexivity. }
  destruct (exists_last Hcs) as (l & x & Hl).
  exists l, x. split; [exact Hl |].
  unfold endswith in Hend. rewrite Hl in Hend. simpl in Hend.
  rewrite length_app in Hend. simpl in Hend.
  replace (length l + 1 - 1)%nat with (length l) in Hend by lia.
  rewrite drop_app_length in Hend.
  unfold is_sep. apply bool_decide_eq_false. apply bool_decide_eq_false in Hend.
  intros ->. apply Hend. reflexivity.
Qed.

Lemma dirname_of_file (dir name : string) :
  dir ≠ "" → endswith dir "/" = false →
  "/"%char ∉ list_ascii_of_string name →
  dirname (dir +:+ "/" +:+ name) = dir
  ∧ basename (dir +:+ "/" +:+ name) = name.
Proof.
  intros Hne Hend Hname.
  destruct (directory_chars dir Hne Hend) as (d & c & Hd & Hc).
  pose proof (no_sep_chars _ Hname) as Hrev.
  unfold dirname, basename. rewrite !chars_app, Hd.
  change (list_ascii_of_string "/") with ["/"%char].
  rewrite !rev_app_distr. simpl rev.
  rewrite <- !app_assoc. simpl app.
  split.
  - rewrite (drop_while_all _ _ _ Hrev). simpl drop_while.
    change (is_sep "/") with true. simpl negb. cbv iota.
    simpl rev. rewrite ?rev_involutive.
    assert (Hnot_all : forallb is_sep ((d ++ [c]) ++ ["/"%char]) = false).
    { rewrite !forallb_app. simpl. rewrite Hc. rewrite andb_false_r. reflexivity. }
    rewrite Hnot_all.
    rewrite bool_decide_eq_true_2 by (destruct d; discriminate).
    simpl andb. cbv iota.
    rewrite !rev_app_distr. simpl rev. simpl app.
    change (is_sep "/") with true. cbv iota. rewrite Hc.
    change (c :: rev d) with ([c] ++ rev d).
    rewrite rev_app_distr, rev_involutive. simpl rev.
    rewrite <- Hd. apply string_of_list_ascii_of_string.
  - rewrite (take_while_all _ (rev (list_ascii_of_string name)) "/"%char _ Hrev)
      by reflexivity.
    rewrite rev_involutive. apply string_of_list_ascii_of_string.
Qed.

Lemma endswith_app (x s suffix : string) :
  endswith s suffix = true → endswith (x +:+ s) suffix = true.
Proof.
  unfold endswith. rewrite chars_app. cbv zeta.
  set (cs := list_ascii_of_string s). set (sfx := list_ascii_of_string suffix).
  set (xs := list_ascii_of_string x).
  intros H. apply bool_decide_eq_true in H. apply bool_decide_eq_true.
  assert (Hlen : (length sfx ≤ length cs)%nat).
  { rewrite <- H at 1. rewrite length_drop. lia. }
  rewrite length_app.
  replace (length xs + length cs - length sfx)%nat
    with (length xs + (length cs - length sfx))%nat by lia.
  rewrite drop_app_add. exact H.
Qed.

Lemma join_directory (dir file : string) :
  dir ≠ "" → endswith dir "/" = false → startswith file "/" = false →
  join dir file = dir +:+ "/" +:+ file.
Proof.
  intros Hne Hend Hstart. unfold join. rewrite Hstart, Hend.
  rewrite bool_decide_eq_false_2 by exact Hne. reflexivity.
Qed.

(** X12.  The path of a configuration file in a model directory and the
    path of the directory itself name the same weights file,
    [best_model.h5] in that directory. *)
Theorem get_keras_model_path_of_config (dir name : string) :
  dir ≠ "" → endswith dir "/" = false → endswith dir ".json" = false →
  "/"%char ∉ list_ascii_of_string name → endswith name ".json" = true →
  get_keras_model_path (dir +:+ "/" +:+ name) = dir +:+ "/best_model.h5"
  ∧ get_keras_model_path dir = dir +:+ "/best_model.h5".
Proof.
  intros Hne Hend Hjson Hname Hext.
  unfold get_keras_model_path.
  rewrite (endswith_app dir ("/" +:+ name) ".json")
    by (apply (endswith_app "/" name); exact Hext).
  rewrite Hjson.
  destruct (dirname_of_file dir name Hne Hend Hname) as [Hdir _].
  rewrite Hdir.
  split; apply join_directory; try assumption; reflexivity.
Qed.

Lemma startswith_sep_no_sep (name suffix : string) :
  "/"%char ∉ list_ascii_of_string name → startswith suffix "/" = false →
  startswith (name +:+ suffix) "/" = false.
Proof.
  unfold startswith. rewrite chars_app. simpl.
  intros Hname Hs.
  destruct (list_ascii_of_string name) as [| c cs]; [exact Hs |].
  simpl. apply bool_decide_eq_false. intros [= ->].
  apply Hname. apply list_elem_of_here.
Qed.

(** X13.  Without an output option (none, or an empty one), the
    predictions are written next to the data, to the data path extended
    by [.predictions.slp]: for a file in a directory and for a bare file
    name alike.  An output option that is not empty is used as it is. *)
Theorem predictions_path_default (dir name : string) (output : option string) :
  output = None ∨ output = Some "" →
  "/"%char ∉ list_ascii_of_string name →
  (dir ≠ "" → endswith dir "/" = false →
   predictions_path output (dir +:+ "/" +:+ name)
   = dir +:+ "/" +:+ name +:+ ".predictions.slp")
  ∧ predictions_path output name = name +:+ ".predictions.slp".
Proof.
  intros Hout Hname.
  assert (Hdefault : ∀ p, predictions_path output p
                          = join (dirname p) (basename p +:+ ".predictions.slp")).
  { intros p. destruct Hout as [-> | ->]; reflexivity. }
  pose proof (no_sep_chars _ Hname) as Hrev.
  split.
  - intros Hne Hend. rewrite Hdefault.
    destruct (dirname_of_file dir name Hne Hend Hname) as [-> ->].
    apply join_directory; [exact Hne | exact Hend |].
    apply startswith_sep_no_sep; [exact Hname | reflexivity].
  - rewrite Hdefault.
    assert (Hdir : dirname name = "").
    { unfold dirname.
      rewrite <- (app_nil_r (rev (list_ascii_of_string name))).
      rewrite (drop_while_all _ _ [] Hrev). reflexivity. }
    assert (Hbase : basename name = name).
    { unfold basename. rewrite (take_while_whole _ _ Hrev), rev_involutive.
      apply string_of_list_ascii_of_string. }
    rewrite Hdir, Hbase. unfold join.
    rewrite (startswith_sep_no_sep name ".predictions.slp" Hname eq_refl).
    reflexivity.
Qed.

End PathProperties.

Lemma get_keras_model_path_of_config_witness :
  Paths.get_keras_model_path ("models/centroid" +:+ "/" +:+ "training_config.json")
  = "models/centroid" +:+ "/best_model.h5"
  ∧ Paths.get_keras_model_path "models/centroid"
    = "models/centroid" +:+ "/best_model.h5".
Proof.
  apply (get_keras_model_path_of_config "models/centroid" "training_config.json");
    try reflexivity; try discriminate.
  vm_compute. intros H.
  repeat (apply elem_of_cons in H as [H | H]; [discriminate H |]).
  inversion H.
Defined.

Lemma predictions_path_default_witness :
  Paths.predictions_path None ("videos" +:+ "/" +:+ "fly.mp4")
  = "videos" +:+ "/" +:+ "fly.mp4" +:+ ".predictions.slp"
  ∧ Paths.predictions_path None "fly.mp4" = "fly.mp4" +:+ ".predictions.slp".
Proof.
  assert (Hname : "/"%char ∉ list_ascii_of_string "fly.mp4").
  { vm_compute. intros H.
    repeat (apply elem_of_cons in H as [H | H]; [discriminate H |]).
    inversion H. }
  destruct (predictions_path_default "videos" "fly.mp4" None
              (or_introl eq_refl) Hname) as [Hfile Hbare].
  split; [apply Hfile; [discriminate | reflexivity] | exact Hbare].
Defined.

(** ** Crop size: bounds and failures *)

Section CropSizeBounds.
Import InstanceCropping.

Lemma stride_nonzero (maximum_stride : Z) :
  0 < maximum_stride → Qeq_bool (inject_Z maximum_stride) 0 = false.
Proof.
  intros Hstride.
  destruct (Qeq_bool (inject_Z maximum_stride) 0) eqn:Hb; [| reflexivity].
  apply Qeq_bool_eq in Hb. change 0%Q with (inject_Z 0) in Hb.
  apply -> inject_Z_injective in Hb. lia.
Qed.

Lemma find_instance_crop_size_value (labels : Labels)
  (padding maximum_stride : Z) :
  0 < maximum_stride →
  Forall visible_instance (user_instances labels) →
  find_instance_crop_size globals_with_numpy labels padding maximum_stride
  = Ok (padded_before_rounding labels padding maximum_stride).
Proof.
  intros Hstride Hvis.
  unfold find_instance_crop_size, padded_before_rounding, max_instance_extent.
  destruct (crop_size_loop (user_instances labels) (NumPy.PyFloat 0) 0
              eq_refl (Qle_refl 0) Hvis) as (s' & r & E & Hs' & Hr).
  cbv zeta in E. rewrite E. simpl. rewrite np_bound. simpl.
  pose proof (stride_nonzero maximum_stride Hstride) as Hnz.
  assert (HL : (r == foldr Qmax 0 (instance_extent <$> user_instances labels))%Q).
  { rewrite Hr. apply Q.max_r. apply max_instance_extent_nonneg. }
  assert (Hceil : ∀ q, (q == r)%Q →
    Qceiling ((q + inject_Z padding) / inject_Z maximum_stride)
    = Qceiling ((foldr Qmax 0%Q (instance_extent <$> user_instances labels)
                 + inject_Z padding) / inject_Z maximum_stride)).
  { intros q Hq. apply Qceiling_comp. rewrite Hq, HL. reflexivity. }
  destruct s' as [q | [q |]]; simpl in Hs'; inversion Hs'; subst; simpl;
    rewrite Hnz; simpl; rewrite (Hceil r); reflexivity.
Qed.

Lemma instance_extent_le_max (insts : list Instance) :
  Forall (λ inst, (instance_extent inst
                   <= foldr Qmax 0 (instance_extent <$> insts))%Q) insts.
Proof.
  induction insts as [| inst insts IH]; simpl; constructor.
  - apply Q.le_max_l.
  - eapply Forall_impl; [exact IH |]. intros i Hi. simpl in Hi.
    eapply Qle_trans; [exact Hi | apply Q.le_max_r].
Qed.

(** Rounding [q] up to a multiple of the stride [s]. *)
Lemma round_up_to_stride (q : Q) (s : Z) :
  0 < s →
  (q <= inject_Z (Qceiling (q / inject_Z s) * s))%Q
  ∧ (inject_Z (Qceiling (q / inject_Z s) * s) < q + inject_Z s)%Q.
Proof.
  intros Hs.
  assert (Hpos : (0 < inject_Z s)%Q).
  { change 0%Q with (inject_Z 0). rewrite <- Zlt_Qlt. exact Hs. }
  assert (Hnz : ¬ (inject_Z s == 0)%Q).
  { intros H. rewrite H in Hpos. apply (Qlt_irrefl 0). exact Hpos. }
  rewrite inject_Z_mult.
  pose proof (Qle_ceiling (q / inject_Z s)) as Hle.
  pose proof (Qceiling_lt (q / inject_Z s)) as Hlt.
  unfold Z.sub in Hlt. rewrite inject_Z_plus in Hlt.
  change (inject_Z (- (1))) with (- (1))%Q in Hlt.
  split.
  - apply (Qmult_le_compat_r _ _ (inject_Z s)) in Hle; [| apply Qlt_le_weak, Hpos].
    assert (Hq : (q / inject_Z s * inject_Z s == q)%Q) by (field; exact Hnz).
    rewrite Hq in Hle. exact Hle.
  - apply (Qmult_lt_compat_r _ _ (inject_Z s)) in Hlt; [| exact Hpos].
    assert (Hq : (q / inject_Z s * inject_Z s == q)%Q) by (field; exact Hnz).
    rewrite Hq in Hlt.
    apply (Qplus_lt_l _ _ (- inject_Z s)%Q).
    assert (Hl : ((inject_Z (Qceiling (q / inject_Z s)) + - (1)) * inject_Z s
                  == inject_Z (Qceiling (q / inject_Z s)) * inject_Z s
                     + - inject_Z s)%Q) by ring.
    assert (Hr : (q + inject_Z s + - inject_Z s == q)%Q) by ring.
    rewrite <- Hl, Hr. exact Hlt.
Qed.

(** X14.  With numpy bound to [np], a positive stride and a labelled
    node in every user instance, the crop size is a multiple of the
    stride that leaves room for every instance and the padding, and it
    is the least such multiple: it exceeds the largest extent plus the
    padding by less than one stride. *)
Theorem find_instance_crop_size_covers (labels : Labels)
  (padding maximum_stride : Z) :
  0 < maximum_stride →
  Forall visible_instance (user_instances labels) →
  ∃ size,
    find_instance_crop_size globals_with_numpy labels padding maximum_stride
    = Ok size
    ∧ (maximum_stride | size)
    ∧ Forall (λ inst, (instance_extent inst + inject_Z padding
                       <= inject_Z size)%Q) (user_instances labels)
    ∧ (inject_Z padding <= inject_Z size)%Q
    ∧ (inject_Z size
       < max_instance_extent labels + inject_Z padding
         + inject_Z maximum_stride)%Q.
Proof.
  intros Hstride Hvis.
  exists (padded_before_rounding labels padding maximum_stride).
  split; [apply find_instance_crop_size_value; assumption |].
  unfold padded_before_rounding.
  destruct (round_up_to_stride
              (max_instance_extent labels + inject_Z padding)
              maximum_stride Hstride) as [Hle Hlt].
  split; [apply Z.divide_factor_r |].
  split; [| split; [| exact Hlt]].
  - eapply Forall_impl; [apply instance_extent_le_max |].
    intros inst Hinst. simpl in Hinst.
    eapply Qle_trans; [| exact Hle].
    apply Qplus_le_l. exact Hinst.
  - eapply Qle_trans; [| exact Hle].
    rewrite <- (Qplus_0_l (inject_Z padding)) at 1.
    apply Qplus_le_l. apply max_instance_extent_nonneg.
Qed.

Lemma has_visible_dec (c : list (option Q)) : has_visible c ∨ ¬ has_visible c.
Proof.
  destruct (omap id c) as [| v vs] eqn:E.
  - right. intros [q Hq].
    assert (Hin : q ∈ omap id c) by (apply list_elem_of_omap; eauto).
    rewrite E in Hin. inversion Hin.
  - left. exists v.
    assert (Hin : v ∈ omap id c) by (rewrite E; apply list_elem_of_here).
    apply list_elem_of_omap in Hin as (o & Ho & Hv). simpl in Hv. subst o.
    exact Ho.
Qed.

Lemma not_visible_omap (c : list (option Q)) :
  ¬ has_visible c → omap id c = [].
Proof.
  intros Hno. destruct (omap id c) as [| v vs] eqn:E; [reflexivity |].
  exfalso. apply Hno. exists v.
  assert (Hin : v ∈ omap id c) by (rewrite E; apply list_elem_of_here).
  apply list_elem_of_omap in Hin as (o & Ho & Hv). simpl in Hv. subst o.
  exact Ho.
Qed.

(** One update of [max_length]: an empty column raises [ValueError];
    otherwise the variable becomes a [numpy.float64], which is NaN as
    soon as it was NaN before or the column has no labelled entry. *)
Lemma update_max_length_cases (s : NumPy.scalar) (c : list (option Q)) :
  (∃ msg, update_max_length globals_with_numpy s c = Raise (ValueError msg))
  ∨ (∃ v, update_max_length globals_with_numpy s c = Ok (NumPy.NpFloat64 v)
          ∧ (NumPy.to_float64 s = None → v = None)
          ∧ (¬ has_visible c → v = None)).
Proof.
  unfold update_max_length. rewrite np_bound. cbn [bind].
  destruct c as [| e c]; [left; eexists; reflexivity |].
  right. unfold NumPy.nanmax, NumPy.nanmin, NumPy.nan_reduce. cbn [bind].
  eexists; split; [reflexivity |]. split.
  - intros ->. reflexivity.
  - intros Hno. rewrite !nan_fold_visible, (not_visible_omap _ Hno).
    unfold NumPy.maximum, NumPy.subtract, NumPy.lift2.
    destruct (NumPy.to_float64 s); reflexivity.
Qed.

Lemma crop_size_loop_cases (insts : list Instance) (s : NumPy.scalar) :
  let loop :=
    for_fold
      (λ max_length inst,
         let pts := points_array inst in
         let* max_length :=
           update_max_length globals_with_numpy max_length (pts.*1) in
         update_max_length globals_with_numpy max_length (pts.*2))
      s insts in
  (∃ msg, loop = Raise (ValueError msg))
  ∨ (∃ s', loop = Ok s'
           ∧ (insts ≠ [] → ∃ v, s' = NumPy.NpFloat64 v)
           ∧ (NumPy.to_float64 s = None
              ∨ Exists (λ inst, ¬ visible_instance inst) insts →
              s' = NumPy.NpFloat64 None)).
Proof.
  cbv zeta. revert s. induction insts as [| inst insts IH]; intros s.
  - right. exists s. split; [reflexivity |]. split; [congruence |].
    intros [Hs | Hex]; [| inversion Hex].
    destruct s as [q | [q |]]; try discriminate Hs. reflexivity.
  - cbn [for_fold].
    destruct (update_max_length_cases s ((points_array inst).*1))
      as [[msg E1] | (v1 & E1 & Hs1 & Hc1)].
    { left. exists msg. rewrite E1. reflexivity. }
    rewrite E1. cbn [bind].
    destruct (update_max_length_cases (NumPy.NpFloat64 v1)
                ((points_array inst).*2))
      as [[msg E2] | (v2 & E2 & Hs2 & Hc2)].
    { left. exists msg. rewrite E2. reflexivity. }
    rewrite E2. cbn [bind].
    destruct (IH (NumPy.NpFloat64 v2)) as [[msg E] | (s' & E & Hnp & Hnan)].
    { left. exists msg. exact E. }
    right. exists s'. split; [exact E |]. split.
    + intros _. destruct insts as [| i2 insts].
      * cbn in E. apply Ok_inj in E. subst s'. eauto.
      * apply Hnp. discriminate.
    + intros [Hs | Hex].
      * apply Hnan. left. cbn [NumPy.to_float64]. auto.
      * apply Exists_cons in Hex as [Hinst | Hrest]; [| apply Hnan; right; exact Hrest].
        apply Hnan. left. cbn [NumPy.to_float64].
        destruct (has_visible_dec ((points_array inst).*1)) as [H1 | H1];
          [| apply Hs2; cbn [NumPy.to_float64]; auto].
        destruct (has_visible_dec ((points_array inst).*2)) as [H2 | H2];
          [| auto].
        exfalso. apply Hinst. split; assumption.
Qed.

(** X15.  An instance without a labelled node in one of its columns
    makes the computation fail, even with numpy bound to [np]: the
    extent of the column is NaN (or the column is empty), and the call
    ends in [ValueError] whatever the other instances, the padding and
    the stride are. *)
Theorem find_instance_crop_size_unlabelled_instance (labels : Labels)
  (padding maximum_stride : Z) :
  Exists (λ inst, ¬ visible_instance inst) (user_instances labels) →
  ∃ msg,
    find_instance_crop_size globals_with_numpy labels padding maximum_stride
    = Raise (ValueError msg).
Proof.
  intros Hbad. unfold find_instance_crop_size.
  destruct (crop_size_loop_cases (user_instances labels) (NumPy.PyFloat 0))
    as [[msg E] | (s' & E & _ & Hnan)]; cbv zeta in E; rewrite E.
  - exists msg. reflexivity.
  - rewrite (Hnan (or_intror Hbad)). cbn [bind NumPy.iadd NumPy.add NumPy.lift2].
    rewrite np_bound. cbn. eexists. reflexivity.
Qed.

(** X16.  A stride of 0 never gives a crop size: without user instances
    the division of the builtin float raises [ZeroDivisionError]; with
    instances the quotient of the [numpy.float64] is infinite or NaN,
    which [ceil] refuses with [OverflowError] or [ValueError]. *)
Theorem find_instance_crop_size_zero_stride (labels : Labels) (padding : Z) :
  ∃ e,
    find_instance_crop_size globals_with_numpy labels padding 0 = Raise e
    ∧ (user_instances labels = [] → e = ZeroDivisionError)
    ∧ (user_instances labels ≠ [] →
       e = OverflowError ∨ ∃ msg, e = ValueError msg).
Proof.
  unfold find_instance_crop_size.
  destruct (user_instances labels) as [| inst insts] eqn:Hinsts.
  - cbn [for_fold bind NumPy.iadd]. rewrite np_bound. cbn. eexists.
    split; [reflexivity |]. split; [reflexivity | congruence].
  - destruct (crop_size_loop_cases (inst :: insts) (NumPy.PyFloat 0))
      as [[msg E] | (s' & E & Hnp & _)]; cbv zeta in E; rewrite E.
    + eexists. split; [reflexivity |]. split; [discriminate | eauto].
    + destruct (Hnp ltac:(discriminate)) as [v ->].
      cbn [bind NumPy.iadd]. rewrite np_bound. cbn [bind].
      destruct v as [q |]; cbn.
      * destruct (Qeq_bool (q + inject_Z padding) 0); cbn;
          eexists; (split; [reflexivity |]); (split; [discriminate | eauto]).
      * eexists. split; [reflexivity |]. split; [discriminate | eauto].
Qed.

End CropSizeBounds.

Lemma find_instance_crop_size_covers_witness :
  ∃ size,
    InstanceCropping.find_instance_crop_size InstanceCropping.globals_with_numpy
      Examples.labels_extent_10 1 4 = Ok size
    ∧ (4 | size)
    ∧ Forall (λ inst, (InstanceCropping.instance_extent inst + inject_Z 1
                       <= inject_Z size)%Q)
        (InstanceCropping.user_instances Examples.labels_extent_10)
    ∧ (inject_Z 1 <= inject_Z size)%Q
    ∧ (inject_Z size
       < InstanceCropping.max_instance_extent Examples.labels_extent_10
         + inject_Z 1 + inject_Z 4)%Q.
Proof.
  apply (find_instance_crop_size_covers Examples.labels_extent_10 1 4); [lia |].
  repeat constructor; exists 0%Q; simpl; apply list_elem_of_here.
Defined.

Lemma find_instance_crop_size_unlabelled_instance_witness :
  ∃ msg,
    InstanceCropping.find_instance_crop_size InstanceCropping.globals_with_numpy
      Examples.labels_unlabelled_instance 0 2 = Raise (ValueError msg).
Proof.
  apply (find_instance_crop_size_unlabelled_instance
           Examples.labels_unlabelled_instance 0 2).
  apply Exists_cons. right. apply Exists_cons. left.
  intros [[q Hq] _]. vm_compute in Hq.
  repeat (apply elem_of_cons in Hq as [Hq | Hq]; [discriminate Hq |]).
  inversion Hq.
Defined.

(** ** What the examples of a frame hold *)

Section FanOutContents.
Import InstanceCropping Frames.






(** [transform_dataset] maps [crop_instances] over the input and
    unbatches, once the test example is drawn. *)
Lemma transform_dataset_keys (self : InstanceCropper) (input_ds : dataset)
  (test_example : example) :
  input_ds !! 0%nat = Some (Ok test_example) →
  transform_dataset self input_ds
  = Ok (dataset_unbatch
          (dataset_map (crop_instances self (keys_to_expand self test_example))
             input_ds)).
Proof.
  intros Hfirst. unfold transform_dataset.
  assert (Hfe : first_element input_ds = Ok test_example).
  { destruct input_ds as [| o ds]; [discriminate |].
    simpl in Hfirst. injection Hfirst as ->. reflexivity. }
  rewrite Hfe. reflexivity.
Qed.

(** The place of the examples of one frame in the output. *)
Lemma transform_dataset_frame (self : InstanceCropper) (input_ds : dataset)
  (test_example frame_data : example) (i : nat) :
  input_ds !! 0%nat = Some (Ok test_example) →
  input_ds !! i = Some (Ok frame_data) →
  transform_dataset self input_ds
  = Ok (dataset_unbatch
          (dataset_map (crop_instances self (keys_to_expand self test_example))
             (take i input_ds))
        ++ dataset_unbatch
             [crop_instances self (keys_to_expand self test_example) frame_data]
        ++ dataset_unbatch
             (dataset_map
                (crop_instances self (keys_to_expand self test_example))
                (drop (S i) input_ds))).
Proof.
  intros Hfirst Hi.
  rewrite (transform_dataset_keys self input_ds test_example Hfirst).
  f_equal.
  rewrite <- (take_drop_middle input_ds i (Ok frame_data) Hi) at 1.
  rewrite dataset_map_app, dataset_unbatch_app. f_equal.
  change (Ok frame_data :: drop (S i) input_ds)
    with ([Ok frame_data] ++ drop (S i) input_ds).
  rewrite dataset_map_app, dataset_unbatch_app. reflexivity.
Qed.



End FanOutContents.


(** ** Keys of the output examples, frames without instances *)

Section FanOutKeys.
Import InstanceCropping Frames.




(** X19.  A frame without instances gives no example: its element of
    the output fails with [InvalidArgumentError], raised where
    [crop_bboxes] reads the first box, and the elements of the other
    frames are not affected. *)
Theorem instance_cropper_frame_without_instances (self : InstanceCropper)
  (input_ds : dataset) (test_example frame_data : example) (image : Image)
  (i : nat) :
  input_ds !! 0%nat = Some (Ok test_example) →
  input_ds !! i = Some (Ok frame_data) →
  frame_data !! "centroids" = Some (Points []) →
  frame_data !! "image" = Some (Img image) →
  let keys := keys_to_expand self test_example in
  ∃ msg,
    transform_dataset self input_ds
    = Ok (dataset_unbatch
            (dataset_map (crop_instances self keys) (take i input_ds))
          ++ [Raise (InvalidArgumentError msg)]
          ++ dataset_unbatch
               (dataset_map (crop_instances self keys) (drop (S i) input_ds))).
Proof.
  intros Hfirst Hi Hcen Himg keys.
  rewrite (transform_dataset_frame self input_ds test_example frame_data i
             Hfirst Hi).
  fold keys. eexists. f_equal. f_equal. f_equal.
  unfold dataset_unbatch, crop_instances, getitem. simpl.
  rewrite Hcen, Himg. reflexivity.
Qed.

End FanOutKeys.


Lemma instance_cropper_frame_without_instances_witness :
  let keys := Frames.keys_to_expand Examples.cropper_3x3
                Examples.frame_two_instances in
  ∃ msg,
    InstanceCropping.transform_dataset Examples.cropper_3x3
      [Ok Examples.frame_two_instances; Ok Examples.frame_without_instances]
    = Ok (InstanceCropping.dataset_unbatch
            (InstanceCropping.dataset_map
               (InstanceCropping.crop_instances Examples.cropper_3x3 keys)
               (take 1 [Ok Examples.frame_two_instances;
                        Ok Examples.frame_without_instances]))
          ++ [Raise (InvalidArgumentError msg)]
          ++ InstanceCropping.dataset_unbatch
               (InstanceCropping.dataset_map
                  (InstanceCropping.crop_instances Examples.cropper_3x3 keys)
                  (drop 2 [Ok Examples.frame_two_instances;
                           Ok Examples.frame_without_instances]))).
Proof.
  apply (instance_cropper_frame_without_instances Examples.cropper_3x3
           [Ok Examples.frame_two_instances;
            Ok Examples.frame_without_instances]
           Examples.frame_two_instances Examples.frame_without_instances
           Examples.image_4x4 1); reflexivity.
Defined.

(** ** Cropping, then grouping by frame *)

Section CropThenGroup.
Import InstanceCropping Frames Inference.







End CropThenGroup.


(** ** When the crop of the box (0, 0, 2, 2) is the slice *)

Section UnitBoxCrops.
Import InstanceCropping Float32 FloatCropping UnitBox.

Lemma sub_diag (p : binary32) (q : Q) :
  to_Q p = Some q → sub p p = SpecFloat.S754_zero false.
Proof.
  destruct p as [[|] | | | s m e]; try discriminate; intros _; try reflexivity.
  unfold sub, SpecFloat.SFsub. rewrite Z.sub_diag. reflexivity.
Qed.

(** The bilinear value between four copies of a pixel, with both weights
    0, is the pixel, up to the sign of a zero: the cast gives the same. *)
Lemma bilinear_of_pixel (t : dtype) (p : binary32) (q : Q) :
  to_Q p = Some q →
  let zero := SpecFloat.S754_zero false in
  let top := add p (mul (sub p p) zero) in
  let bottom := add p (mul (sub p p) zero) in
  cast t (add top (mul (sub bottom top) zero)) = cast t p.
Proof.
  intros Hp. cbv zeta. rewrite (sub_diag p q Hp).
  change (mul (SpecFloat.S754_zero false) (SpecFloat.S754_zero false))
    with (SpecFloat.S754_zero false).
  destruct p as [[|] | | | s m e]; try discriminate.
  - destruct t; reflexivity.
  - reflexivity.
  - change (add (SpecFloat.S754_finite s m e) (SpecFloat.S754_zero false))
      with (SpecFloat.S754_finite s m e).
    rewrite (sub_diag _ q Hp). reflexivity.
Qed.

Lemma cast_finite (t : dtype) (p : binary32) (v : Q) :
  cast t p = Some v → ∃ q, to_Q p = Some q.
Proof.
  unfold cast. destruct (int_range t) as [[lo hi] |].
  - destruct (to_Q p) as [q |]; [eauto | discriminate].
  - destruct p as [s | s | | s m e]; cbn; eauto; destruct t; discriminate.
Qed.

Lemma tabulate_nth {X Y : Type} (f : X → Y) (x0 : X) (p : list X) :
  (λ d, f (nth d p x0)) <$> seq 0 (length p) = f <$> p.
Proof.
  induction p as [| x p IH]; [reflexivity |].
  cbn [length seq fmap list_fmap nth]. f_equal.
  rewrite <- IH, <- seq_shift, <- list_fmap_compose. reflexivity.
Qed.

(** At the pixel centers 0, 1 and 2 the bilinear method computes with
    both weights 0. *)
Lemma bilinear_at_center (px : list (list (list Q))) (y x : nat) :
  (y < 3)%nat → (x < 3)%nat →
  bilinear px (of_Z (Z.of_nat y)) (of_Z (Z.of_nat x))
  = (λ d,
       let zero := SpecFloat.S754_zero false in
       let p := read px (Z.of_nat y) (Z.of_nat x) d in
       let top := add p (mul (sub p p) zero) in
       let bottom := add p (mul (sub p p) zero) in
       add top (mul (sub bottom top) zero))
    <$> seq 0 (Z.to_nat (depth px)).
Proof.
  intros Hy Hx.
  destruct y as [| [| [| y]]]; [| | | lia];
    (destruct x as [| [| [| x]]]; [| | | lia]); reflexivity.
Qed.

(** The channels of a pixel that the cast gives back. *)
Lemma crop_pixel (t : dtype) (px : list (list (list Q))) (y x : nat)
  (p : list Q) :
  (y < 3)%nat → (x < 3)%nat →
  nth x (nth y px []) [] = p →
  length p = Z.to_nat (depth px) →
  Forall (λ v, cast t (of_Q v) = Some v) p →
  map (cast t) (bilinear px (of_Z (Z.of_nat y)) (of_Z (Z.of_nat x)))
  = map Some p.
Proof.
  intros Hy Hx Hp Hlen Hcast.
  rewrite (bilinear_at_center px y x Hy Hx), <- Hlen.
  change (map (cast t)) with (fmap (M := list) (cast t)).
  rewrite <- list_fmap_compose.
  change (map Some p) with (Some <$> p).
  rewrite <- (tabulate_nth Some 0%Q p).
  apply list_fmap_ext. intros i d Hd. unfold compose. cbv zeta.
  apply lookup_seq in Hd as [-> Hd]. cbn [Nat.add].
  unfold read, pixel_at. rewrite !Nat2Z.id, Hp.
  assert (Hv : cast t (of_Q (nth i p 0%Q)) = Some (nth i p 0%Q)).
  { apply (proj1 (Forall_forall _ _) Hcast).
    apply list_elem_of_In, nth_In. exact Hd. }
  destruct (cast_finite _ _ _ Hv) as [q Hq].
  rewrite (bilinear_of_pixel t _ q Hq). exact Hv.
Qed.

(** X21.  When the normalization of the box (0, 0, 2, 2) is exact for the
    height and for the width of the image, so that the samples are the
    pixel centers 0, 1 and 2, and the values of the image survive the
    conversion to [tf.float32] and the cast back, the crop is the slice
    [image[0:3, 0:3]], value for value. *)
Theorem crop_bboxes_unit_box_exact (image : Image) :
  rectangular (pixels image) → faithful image →
  3 ≤ height (pixels image) → 3 ≤ width (pixels image) →
  exact_grid (height (pixels image)) → exact_grid (width (pixels image)) →
  crop_bboxes image [to_tensor (mkBBox 0 0 2 2)]
  = Ok [of_image (slice image 0 3 0 3)].
Proof.
  intros Hrect Hfaith HH HW Hgy Hgx.
  rewrite float_crop_bboxes_cons.
  change (box_size (to_tensor (mkBBox 0 0 2 2))) with (3, 3). cbn [fst snd].
  destruct (Z.ltb_spec 0 (height (pixels image))) as [_ |]; [| lia].
  destruct (Z.ltb_spec 0 (width (pixels image))) as [_ |]; [| lia].
  cbn [negb andb Z.ltb Z.compare].
  unfold normalize_bboxes. cbn [fmap list_fmap].
  do 2 f_equal.
  unfold cast_crop, of_image, slice. cbn [image_dtype pixels]. f_equal.
  unfold crop_one.
  cbn [fy1 fx1 fy2 fx2 bbox32_zip to_tensor y1 x1 y2 x2].
  change (Z.to_nat 3) with 3%nat. cbn [seq fmap list_fmap map].
  fold (grid (height (pixels image)) 0) (grid (height (pixels image)) 1)
    (grid (height (pixels image)) 2)
    (grid (width (pixels image)) 0) (grid (width (pixels image)) 1)
    (grid (width (pixels image)) 2).
  unfold exact_grid in Hgy, Hgx.
  inversion Hgy as [| ? ? [Ey0 Oy0] Hgy1]; subst.
  inversion Hgy1 as [| ? ? [Ey1 Oy1] Hgy2]; subst.
  inversion Hgy2 as [| ? ? [Ey2 Oy2] _]; subst.
  inversion Hgx as [| ? ? [Ex0 Ox0] Hgx1]; subst.
  inversion Hgx1 as [| ? ? [Ex1 Ox1] Hgx2]; subst.
  inversion Hgx2 as [| ? ? [Ex2 Ox2] _]; subst.
  rewrite Ey0, Ey1, Ey2, Ex0, Ex1, Ex2, Oy0, Oy1, Oy2, Ox0, Ox1, Ox2.
  cbn [orb].
  destruct image as [t px]. cbn [image_dtype pixels] in *.
  unfold height in HH. unfold width in HW.
  destruct px as [| r0 [| r1 [| r2 rows]]]; cbn [length] in HH; try lia.
  assert (Hrow : ∀ y row, (y < 3)%nat →
            nth y (r0 :: r1 :: r2 :: rows) [] = row →
            ∃ p0 p1 p2 ps, row = p0 :: p1 :: p2 :: ps
              ∧ Forall (λ p, length p
                             = Z.to_nat (depth (r0 :: r1 :: r2 :: rows))
                             ∧ Forall (λ v, cast t (of_Q v) = Some v) p)
                  row).
  { intros y row Hy Hnth.
    assert (Hin : row ∈ r0 :: r1 :: r2 :: rows).
    { subst row. apply list_elem_of_In, nth_In. cbn [length]. lia. }
    pose proof (proj1 (Forall_forall _ _) Hrect row Hin) as [Hlen Hpix].
    pose proof (proj1 (Forall_forall _ _) Hfaith row Hin) as Hrowf.
    cbn [hd] in Hlen, Hpix, HW.
    destruct row as [| p0 [| p1 [| p2 ps]]]; cbn [length] in Hlen; try lia.
    exists p0, p1, p2, ps. split; [reflexivity |].
    apply Forall_forall. intros p Hp. split.
    - unfold depth. rewrite Nat2Z.id. cbn [hd].
      exact (proj1 (Forall_forall _ _) Hpix p Hp).
    - exact (proj1 (Forall_forall _ _) Hrowf p Hp). }
  destruct (Hrow 0%nat r0 ltac:(lia) eq_refl) as (p00 & p01 & p02 & ps0 & -> & H0).
  destruct (Hrow 1%nat r1 ltac:(lia) eq_refl) as (p10 & p11 & p12 & ps1 & -> & H1).
  destruct (Hrow 2%nat r2 ltac:(lia) eq_refl) as (p20 & p21 & p22 & ps2 & -> & H2).
  clear Hrow.
  cbn [drop take fmap list_fmap map].
  apply Forall_cons in H0 as [[L00 C00] H0].
  apply Forall_cons in H0 as [[L01 C01] H0].
  apply Forall_cons in H0 as [[L02 C02] _].
  apply Forall_cons in H1 as [[L10 C10] H1].
  apply Forall_cons in H1 as [[L11 C11] H1].
  apply Forall_cons in H1 as [[L12 C12] _].
  apply Forall_cons in H2 as [[L20 C20] H2].
  apply Forall_cons in H2 as [[L21 C21] H2].
  apply Forall_cons in H2 as [[L22 C22] _].
  repeat f_equal;
    match goal with
    | |- map (cast t) (bilinear ?px (of_Z (Z.of_nat ?y)) (of_Z (Z.of_nat ?x)))
         = map Some ?p =>
        apply (crop_pixel t px y x p); [lia | lia | reflexivity | assumption
                                        | assumption]
    end.
Qed.

(** The normalization is exact for every size from 3 to 41; 42 is the
    first size for which it is not. *)
Lemma exact_grid_below_42 (size : Z) : 3 ≤ size ≤ 41 → exact_grid size.
Proof.
  intros [Hlo Hhi].
  assert (Hn : ∃ n, size = 3 + Z.of_nat n ∧ (n < 39)%nat).
  { exists (Z.to_nat (size - 3)). split; lia. }
  destruct Hn as (n & -> & Hn). unfold exact_grid.
  do 39 (destruct n as [| n];
         [repeat (apply Forall_cons_2; [split; vm_compute; reflexivity |]);
          apply Forall_nil_2 |]).
  lia.
Qed.

Example exact_grid_not_42 : ¬ exact_grid 42.
Proof.
  intros H. apply Forall_cons in H as [_ H]. apply Forall_cons in H as [[H _] _].
  vm_compute in H. discriminate H.
Qed.

(** X22.  The crops have the element type of the image, and a crop cast
    to an integer type holds whole numbers of that type, whatever the
    image and the boxes are. *)
Theorem crop_bboxes_dtype (image : Image) (bboxes : list bbox32)
  (crops : list Crop) :
  crop_bboxes image bboxes = Ok crops →
  Forall
    (λ crop,
       crop_dtype crop = image_dtype image
       ∧ ∀ lo hi, int_range (image_dtype image) = Some (lo, hi) →
           Forall (Forall (Forall (λ v : option Q,
                                     ∀ q, v = Some q →
                                          ∃ z, q = inject_Z z ∧ lo ≤ z ≤ hi)))
             (crop_pixels crop))
    crops.
Proof.
  intros Hcrops. destruct bboxes as [| first rest]; [discriminate |].
  rewrite float_crop_bboxes_cons in Hcrops.
  destruct (negb _) in Hcrops; [discriminate |].
  destruct (negb _) in Hcrops; [discriminate |].
  apply Ok_inj in Hcrops. subst crops.
  rewrite Forall_fmap. apply Forall_true. intros raw. cbn.
  split; [reflexivity |]. intros lo hi Hrange.
  rewrite Forall_map. apply Forall_true. intros row.
  rewrite Forall_map. apply Forall_true. intros p.
  rewrite Forall_map. apply Forall_true. intros x q.
  unfold cast. rewrite Hrange.
  destruct (to_Q x) as [qx |]; [| discriminate]. cbn.
  destruct (Z.leb_spec lo (truncate qx)); [| discriminate].
  destruct (Z.leb_spec (truncate qx) hi); [| discriminate].
  cbn. intros [= <-]. eauto.
Qed.

End UnitBoxCrops.

Lemma crop_bboxes_unit_box_exact_witness :
  FloatCropping.crop_bboxes Examples.image_4x4
    [FloatCropping.to_tensor (InstanceCropping.mkBBox 0 0 2 2)]
  = Ok [FloatCropping.of_image
          (InstanceCropping.slice Examples.image_4x4 0 3 0 3)].
Proof.
  apply (crop_bboxes_unit_box_exact Examples.image_4x4).
  - repeat constructor.
  - repeat constructor.
  - unfold InstanceCropping.height. simpl. lia.
  - unfold InstanceCropping.width. simpl. lia.
  - apply exact_grid_below_42. unfold InstanceCropping.height. simpl. lia.
  - apply exact_grid_below_42. unfold InstanceCropping.width. simpl. lia.
Defined.

Lemma crop_bboxes_dtype_witness :
  Forall
    (λ crop,
       FloatCropping.crop_dtype crop
       = InstanceCropping.image_dtype Examples.image_42x42
       ∧ ∀ lo hi,
           FloatCropping.int_range
             (InstanceCropping.image_dtype Examples.image_42x42)
           = Some (lo, hi) →
           Forall (Forall (Forall (λ v : option Q,
                                     ∀ q, v = Some q →
                                          ∃ z, q = inject_Z z ∧ lo ≤ z ≤ hi)))
             (FloatCropping.crop_pixels crop))
    [ FloatCropping.mkCrop InstanceCropping.uint8
        [ [[Some 0%Q]; [Some 0%Q]; [Some 1%Q]];
          [[Some 3%Q]; [Some 4%Q]; [Some 5%Q]];
          [[Some 7%Q]; [Some 9%Q]; [Some 10%Q]] ] ].
Proof.
  apply (crop_bboxes_dtype Examples.image_42x42
           [FloatCropping.to_tensor (InstanceCropping.mkBBox 0 0 2 2)]).
  vm_compute. reflexivity.
Defined.
